(** * zerg-rush frontend: a shallow embedding of the streaming client,
      the status badge, the page actions, the API client surface and the
      audit-log storage rules.

    Sources embedded here:
    - [frontend/src/hooks/useStreamingOperation.ts]  (module [Hook], [Async])
    - [frontend/src/types/index.ts]                  (module [Types])
    - [components/common/StatusBadge.tsx]            (module [Badge])
    - [components/common/OperationProgress.tsx]      (module [Progress])
    - [pages/Dashboard.tsx], [pages/AgentDetail.tsx] (module [Pages])
    - [services/api.ts]                              (module [Api], [Calls])
    - the SQL schema of [architecture.md]            (module [Storage], [Ledger])
    - [pages/Dashboard.tsx], its handlers            (module [DashboardPage])
    - [components/common/OperationProgress.tsx]      (module [Panel])
    - [context/AuthContext.tsx]                      (module [Session])
    - [App.tsx]                                      (module [Router])
    - [pages/AuditLogs.tsx]                          (module [AuditLogsPage])

    Conventions.  A JavaScript string is a Rocq [string]; a value that came
    out of [JSON.parse] is a [jsval]; React state is passed explicitly as a
    [Store]; a rejected promise or a [throw] is a value of type [thrown].
    What the JavaScript runtime supplies ([JSON.parse], [TextDecoder]) is a
    field of the class [Runtime], so every theorem holds for any runtime. *)

From Stdlib Require Import String Ascii List Bool Arith NArith Lia DecimalString.
From Stdlib.Strings Require Import Byte.
Import ListNotations.
Open Scope string_scope.
Open Scope list_scope.
Set Warnings "-register-all".

(* ================================================================== *)
(** * Part I: definitions                                              *)
(* ================================================================== *)

(** ** JavaScript values and the string operations the code uses *)
Module Js.

(** Values reachable from [JSON.parse], plus [undefined].  A number is
    carried by its [Number::toString] rendering ("0", "12.5", "1e+21"):
    the program only tests numbers for truthiness and prints them.
    An object holds its properties in source order. *)
Inductive jsval : Type :=
| JUndefined
| JNull
| JBool (b : bool)
| JNum (repr : string)
| JStr (s : string)
| JArr (items : list jsval)
| JObj (props : list (string * jsval)).

(** [ToBoolean]. *)
Definition truthy (v : jsval) : bool :=
  match v with
  | JUndefined | JNull => false
  | JBool b => b
  | JNum r => negb (String.eqb r "0" || String.eqb r "NaN")
  | JStr s => negb (String.eqb s "")
  | JArr _ | JObj _ => true
  end.

(** [a || b]. *)
Definition or_else (a b : jsval) : jsval := if truthy a then a else b.

Definition nullish (v : jsval) : bool :=
  match v with JUndefined | JNull => true | _ => false end.

(** Own property of an object literal: [JSON.parse] lets a later
    duplicate key overwrite an earlier one. *)
Fixpoint own_property (props : list (string * jsval)) (key : string)
  : option jsval :=
  match props with
  | [] => None
  | (k, v) :: rest =>
      match own_property rest key with
      | Some later => Some later
      | None => if String.eqb k key then Some v else None
      end
  end.

(** [v.key] on a value that is neither [null] nor [undefined].  The keys
    this program reads ("type", "message", "data", "agent", "detail") are
    no property of the String, Number, Boolean, Array or Object
    prototypes, so only own properties of objects are found. *)
Definition member (v : jsval) (key : string) : jsval :=
  match v with
  | JObj props =>
      match own_property props key with Some x => x | None => JUndefined end
  | _ => JUndefined
  end.

(** [v.key]; [None] is the [TypeError] of reading a property of [null]
    or [undefined]. *)
Definition Get (v : jsval) (key : string) : option jsval :=
  if nullish v then None else Some (member v key).

(** [v?.key]. *)
Definition optional_Get (v : jsval) (key : string) : jsval :=
  if nullish v then JUndefined else member v key.

(** [v === "s"]. *)
Definition is_string (v : jsval) (s : string) : bool :=
  match v with JStr t => String.eqb t s | _ => false end.

(** [v === null]. *)
Definition is_null (v : jsval) : bool :=
  match v with JNull => true | _ => false end.

Definition has_own (props : list (string * jsval)) (key : string) : bool :=
  match own_property props key with Some _ => true | None => false end.

(** [ToString] on such a value; [None] is the [TypeError] of
    [OrdinaryToPrimitive] (an object whose own "toString" property hides
    [Object.prototype.toString]: a parsed property is never callable).
    An array prints as [join(",")], where [null] and [undefined] print
    empty. *)
Fixpoint ToString (v : jsval) : option string :=
  match v with
  | JUndefined => Some "undefined"
  | JNull => Some "null"
  | JBool true => Some "true"
  | JBool false => Some "false"
  | JNum r => Some r
  | JStr s => Some s
  | JArr items =>
      (fix join (l : list jsval) : option string :=
         match l with
         | [] => Some ""
         | x :: rest =>
             let this :=
               match x with
               | JUndefined | JNull => Some ""
               | _ => ToString x
               end in
             match rest with
             | [] => this
             | _ :: _ =>
                 match this, join rest with
                 | Some a, Some b => Some (a ++ "," ++ b)%string
                 | _, _ => None
                 end
             end
         end) items
  | JObj props =>
      if has_own props "toString" then None else Some "[object Object]"
  end.

(** What a [throw] or a rejected promise carries.  [Thrown_Error] is any
    instance of [Error] ([DOMException] included) with its [name] and
    [message]; [Thrown_other] is any other thrown value. *)
Inductive thrown : Type :=
| Thrown_Error (name message : string)
| Thrown_other.

(** The line feed, ["\n"]. *)
Definition LF : ascii := "010"%char.

(** [s.split(sep)] for a one-character separator: never empty. *)
Fixpoint split (sep : ascii) (s : string) : list string :=
  match s with
  | EmptyString => [EmptyString]
  | String c rest =>
      if Ascii.eqb c sep then EmptyString :: split sep rest
      else match split sep rest with
           | l :: ls => String c l :: ls
           | [] => [String c EmptyString]
           end
  end.

(** [s.startsWith(p)]. *)
Definition startsWith (p s : string) : bool := String.prefix p s.

(** [s.slice(n)] for [0 <= n]. *)
Fixpoint slice (n : nat) (s : string) : string :=
  match n, s with
  | O, _ => s
  | S n', String _ rest => slice n' rest
  | S _, EmptyString => EmptyString
  end.

(** [`${n}`] for a non-negative integer. *)
Definition decimal (n : N) : string :=
  NilEmpty.string_of_uint (N.to_uint n).

(** [s.charAt(0).toUpperCase() + s.slice(1)] on ASCII letters. *)
Definition toUpperCase_char (c : ascii) : ascii :=
  let n := nat_of_ascii c in
  if Nat.leb 97 n && Nat.leb n 122 then ascii_of_nat (n - 32) else c.

Definition capitalize (s : string) : string :=
  match s with
  | EmptyString => EmptyString
  | String c rest => String (toUpperCase_char c) rest
  end.

End Js.
Import Js.

(** ** What the JavaScript runtime supplies *)

(** [JSON_parse] returns [None] where [JSON.parse] throws a [SyntaxError].
    A [TextDecoder] is a state machine: [decode d bytes] is
    [d.decode(bytes, {stream: true})], returning the decoder afterwards
    (it may hold back an incomplete multi-byte sequence) and the text.
    [TypeError_message] is the engine's message for the [TypeError] of
    [ToString] on an object. *)
Class Runtime : Type := {
JSON_parse : string -> option jsval;
TextDecoder : Type;
new_TextDecoder : TextDecoder;
decode : TextDecoder -> list byte -> TextDecoder * string;
TypeError_message : string
}.

(** ** [types/index.ts] *)
Module Types.

(** [export type AgentStatus = 'creating' | 'running' | ...], in the
    order of the declaration. *)
Inductive AgentStatus : Type :=
| creating | running | stopping | stopped
| starting | deleting | deleted | error.

(** The string literal each member of the union is at run time. *)
Definition literal (s : AgentStatus) : string :=
  match s with
  | creating => "creating"
  | running => "running"
  | stopping => "stopping"
  | stopped => "stopped"
  | starting => "starting"
  | deleting => "deleting"
  | deleted => "deleted"
  | error => "error"
  end.

Definition all_AgentStatus : list AgentStatus :=
  [creating; running; stopping; stopped; starting; deleting; deleted; error].

(** [export interface Agent]; a nullable field is an [option]. *)
Record Agent : Type := {
  id : string;
  name : string;
  vm_id : string;
  vm_size : string;
  vm_status : AgentStatus;
  vm_internal_ip : option string;
  vm_external_ip : option string;
  vm_zone : option string;
  cloud_provider : string;
  bucket_id : string;
  current_task : option string;
  platform_type : string;
  platform_version : option string;
  template_id : option string;
  gateway_port : N;
  created_at : string;
  updated_at : string;
  cloud_console_url : option string;
  ssh_url : option string;
  ssh_command : option string
}.

(** The interfaces as declarations: the field names of each, for the
    lemmas on what a declared type can carry. *)
Definition Credential_fields : list string :=
  ["id"; "name"; "type"; "description"; "created_at"].

Definition CreateCredentialRequest_fields : list string :=
  ["name"; "type"; "description"; "value"].

Definition AuditLog_fields : list string :=
  ["id"; "action_type"; "target_type"; "target_id"; "details";
   "ip_address"; "timestamp"].

Definition StreamEvent_fields : list string :=
  ["type"; "timestamp"; "message"; "depth"; "data"; "duration_ms"].

End Types.

(** ** [components/common/StatusBadge.tsx] *)
Module Badge.
Import Types.

Record Style : Type := { bg : string; text : string; dot : string }.

(** [const statusStyles: Record<AgentStatus, ...>], an object literal:
    its properties in source order, keyed by the status literal. *)
Definition statusStyles : list (string * Style) :=
  [ ("running",  {| bg := "bg-green-50";  text := "text-green-700";  dot := "bg-green-500" |});
    ("stopped",  {| bg := "bg-gray-50";   text := "text-gray-700";   dot := "bg-gray-500" |});
    ("creating", {| bg := "bg-blue-50";   text := "text-blue-700";   dot := "bg-blue-500" |});
    ("starting", {| bg := "bg-blue-50";   text := "text-blue-700";   dot := "bg-blue-500" |});
    ("stopping", {| bg := "bg-yellow-50"; text := "text-yellow-700"; dot := "bg-yellow-500" |});
    ("deleting", {| bg := "bg-red-50";    text := "text-red-700";    dot := "bg-red-500" |});
    ("deleted",  {| bg := "bg-gray-50";   text := "text-gray-500";   dot := "bg-gray-400" |});
    ("error",    {| bg := "bg-red-50";    text := "text-red-700";    dot := "bg-red-500" |}) ].

(** [statusStyles[key]]. *)
Fixpoint lookup (key : string) (table : list (string * Style))
  : option Style :=
  match table with
  | [] => None
  | (k, v) :: rest => if String.eqb k key then Some v else lookup key rest
  end.

(** [['creating', 'starting', 'stopping', 'deleting'].includes(status)]. *)
Definition transient_literals : list string :=
  ["creating"; "starting"; "stopping"; "deleting"].

Definition includes (l : list string) (s : string) : bool :=
  existsb (String.eqb s) l.

(** What the badge renders: the classes chosen, whether the dot pulses,
    and the label. *)
Record Rendered : Type := {
  styles : Style;
  animate_pulse : bool;
  label : string
}.

(** [statusStyles.error], the fallback of [||]. *)
Definition fallback : Style :=
  match lookup "error" statusStyles with
  | Some s => s
  | None => {| bg := ""; text := ""; dot := "" |}
  end.

(** [export default function StatusBadge({ status })]. *)
Definition StatusBadge (status : AgentStatus) : Rendered :=
  let styles :=
    match lookup (literal status) statusStyles with
    | Some s => s
    | None => fallback
    end in
  {| styles := styles;
     animate_pulse := includes transient_literals (literal status);
     label := capitalize (literal status) |}.

End Badge.

(** ** [services/api.ts]: the client's interface surface *)
Module Api.

Inductive Method : Type := GET | POST | PUT | DELETE.

Definition Method_eqb (a b : Method) : bool :=
  match a, b with
  | GET, GET | POST, POST | PUT, PUT | DELETE, DELETE => true
  | _, _ => false
  end.

(** One exported operation: the object it belongs to, its name, the HTTP
    method it issues and its path under [API_BASE], a path parameter
    written [{id}]. *)
Record Operation : Type := {
  group : string;
  op : string;
  method : Method;
  path : string
}.

Definition mk (g o : string) (m : Method) (p : string) : Operation :=
  {| group := g; op := o; method := m; path := p |}.

Definition API_BASE : string := "/api".

Definition auth : list Operation :=
  [ mk "auth" "getLoginUrl" GET "/auth/login";
    mk "auth" "logout" POST "/auth/logout";
    mk "auth" "me" GET "/auth/me" ].

Definition agents : list Operation :=
  [ mk "agents" "list" GET "/agents";
    mk "agents" "get" GET "/agents/{id}";
    mk "agents" "getStatus" GET "/agents/{id}/status";
    mk "agents" "archive" POST "/agents/{id}/archive";
    mk "agents" "chat" POST "/agents/{id}/chat" ].

(** [agents.streaming]: the URL builders, each with the method the pages
    pass it to ([executePost] or [executeDelete]). *)
Definition streaming : list Operation :=
  [ mk "agents.streaming" "createUrl" POST "/agents/stream";
    mk "agents.streaming" "deleteUrl" DELETE "/agents/{id}/stream";
    mk "agents.streaming" "startUrl" POST "/agents/{id}/start/stream";
    mk "agents.streaming" "stopUrl" POST "/agents/{id}/stop/stream" ].

Definition savedAgents : list Operation :=
  [ mk "savedAgents" "list" GET "/saved-agents";
    mk "savedAgents" "getStarred" GET "/saved-agents/starred";
    mk "savedAgents" "get" GET "/saved-agents/{id}";
    mk "savedAgents" "update" PUT "/saved-agents/{id}";
    mk "savedAgents" "delete" DELETE "/saved-agents/{id}";
    mk "savedAgents" "star" POST "/saved-agents/{id}/star";
    mk "savedAgents" "unstar" DELETE "/saved-agents/{id}/star";
    mk "savedAgents" "copy" POST "/saved-agents/{id}/copy" ].

Definition credentials : list Operation :=
  [ mk "credentials" "list" GET "/credentials";
    mk "credentials" "get" GET "/credentials/{id}";
    mk "credentials" "create" POST "/credentials";
    mk "credentials" "delete" DELETE "/credentials/{id}" ].

Definition logs : list Operation :=
  [ mk "logs" "list" GET "/logs";
    mk "logs" "export" GET "/logs/export" ].

(** Every operation the module exports. *)
Definition surface : list Operation :=
  auth ++ agents ++ streaming ++ savedAgents ++ credentials ++ logs.

(** The server's endpoints as [architecture.md] lists them under "API
    Endpoints": method and path. *)
Definition documented_endpoints : list (Method * string) :=
  [ (GET, "/auth/login"); (GET, "/auth/callback"); (POST, "/auth/logout");
    (GET, "/auth/me");
    (GET, "/agents"); (POST, "/agents"); (GET, "/agents/{id}");
    (DELETE, "/agents/{id}"); (POST, "/agents/{id}/start");
    (POST, "/agents/{id}/stop"); (POST, "/agents/{id}/archive");
    (POST, "/agents/{id}/restore"); (GET, "/agents/{id}/status");
    (GET, "/agents/{id}/files"); (GET, "/agents/{id}/files/{path}");
    (PUT, "/agents/{id}/files/{path}"); (POST, "/agents/{id}/chat");
    (GET, "/agents/{id}/ssh");
    (GET, "/saved-agents"); (GET, "/saved-agents/starred");
    (GET, "/saved-agents/{id}"); (PUT, "/saved-agents/{id}");
    (DELETE, "/saved-agents/{id}"); (POST, "/saved-agents/{id}/star");
    (DELETE, "/saved-agents/{id}/star"); (POST, "/saved-agents/{id}/copy");
    (POST, "/saved-agents/{id}/deploy");
    (GET, "/credentials"); (POST, "/credentials"); (GET, "/credentials/{id}");
    (DELETE, "/credentials/{id}");
    (POST, "/agents/{id}/credentials/{cred_id}");
    (DELETE, "/agents/{id}/credentials/{cred_id}");
    (GET, "/logs"); (GET, "/logs/export") ].

(** A method that only reads. *)
Definition read_only (m : Method) : bool := Method_eqb m GET.

(** The operation addresses the audit log. *)
Definition on_logs (o : Operation) : bool := startsWith "/logs" (path o).

(** [agents.streaming.startUrl(id)] and its siblings. *)
Definition createUrl : string := (API_BASE ++ "/agents/stream")%string.
Definition deleteUrl (id : string) : string :=
  (API_BASE ++ "/agents/" ++ id ++ "/stream")%string.
Definition startUrl (id : string) : string :=
  (API_BASE ++ "/agents/" ++ id ++ "/start/stream")%string.
Definition stopUrl (id : string) : string :=
  (API_BASE ++ "/agents/" ++ id ++ "/stop/stream")%string.

End Api.

(** ** The audit log's storage rules ([architecture.md], database schema) *)
Module Storage.

(** A row is its columns by name. *)
Definition Row : Type := list (string * string).

(** A well-formed statement against a table: [INSERT INTO t VALUES row],
    [UPDATE t SET (set) WHERE (cond)] and [DELETE FROM t WHERE (cond)],
    the three a rule can be written for, each without a [RETURNING]
    clause, and [TRUNCATE t], for which no rule can be written. *)
Inductive Statement : Type :=
| Insert (table : string) (row : Row)
| Update (table : string) (set : Row -> Row) (cond : Row -> bool)
| Delete (table : string) (cond : Row -> bool)
| Truncate (table : string).

Inductive Event : Type := ON_INSERT | ON_UPDATE | ON_DELETE.

Definition Event_eqb (a b : Event) : bool :=
  match a, b with
  | ON_INSERT, ON_INSERT | ON_UPDATE, ON_UPDATE | ON_DELETE, ON_DELETE => true
  | _, _ => false
  end.

(** The event a rule can name for the statement; none for [TRUNCATE]. *)
Definition event_of (s : Statement) : option Event :=
  match s with
  | Insert _ _ => Some ON_INSERT
  | Update _ _ _ => Some ON_UPDATE
  | Delete _ _ => Some ON_DELETE
  | Truncate _ => None
  end.

Definition table_of (s : Statement) : string :=
  match s with
  | Insert t _ | Update t _ _ | Delete t _ | Truncate t => t
  end.

(** [CREATE RULE name AS ON event TO table DO INSTEAD commands];
    [DO INSTEAD NOTHING] is the empty command list. *)
Record Rule : Type := {
  rule_name : string;
  on_event : Event;
  to_table : string;
  do_instead : list Statement
}.

(** The two rules of the schema. *)
Definition audit_log_no_update : Rule :=
  {| rule_name := "audit_log_no_update"; on_event := ON_UPDATE;
     to_table := "audit_logs"; do_instead := [] |}.

Definition audit_log_no_delete : Rule :=
  {| rule_name := "audit_log_no_delete"; on_event := ON_DELETE;
     to_table := "audit_logs"; do_instead := [] |}.

Definition schema_rules : list Rule :=
  [audit_log_no_update; audit_log_no_delete].

Definition applies (r : Rule) (s : Statement) : bool :=
  match event_of s with
  | Some e => Event_eqb (on_event r) e && String.eqb (to_table r) (table_of s)
  | None => false
  end.

(** The rule system's rewrite: an [INSTEAD] rule that applies replaces
    the statement by its commands; with no such rule the statement is
    passed on as written. *)
Definition rewrite (rules : list Rule) (s : Statement) : list Statement :=
  match find (fun r => applies r s) rules with
  | Some r => do_instead r
  | None => [s]
  end.

(** What lies behind the rule system is not part of the schema's rules:
    the executor is whatever the database does with a command that
    reaches it (constraints, permissions, triggers), taking its state
    [DB] to the next state or raising an error. *)
Section Executor.
Variable DB : Type.
Variable run : Statement -> DB -> DB + string.

(** The commands a statement was rewritten to, run in order until one
    raises. *)
Fixpoint run_all (commands : list Statement) (db : DB) : DB + string :=
  match commands with
  | [] => inl db
  | c :: rest =>
      match run c db with
      | inl db' => run_all rest db'
      | inr e => inr e
      end
  end.

(** The statement as the database executes it under its rules. *)
Definition execute (rules : list Rule) (s : Statement) (db : DB)
  : DB + string :=
  run_all (rewrite rules s) db.

End Executor.

End Storage.

(** ** [hooks/useStreamingOperation.ts] *)
Module Hook.
Section WithRuntime.
Context {rt : Runtime}.

(** An [AbortController] is known by the order of its creation. *)
Definition AbortController : Type := nat.

(** The cells of one hook instance: the four [useState] cells, the
    [useRef] cell, and of the controllers the instance created, which
    have been aborted and which comes next. *)
Record Store : Type := {
  events : list jsval;
  isLoading : bool;
  error : jsval;
  result : jsval;
  abortControllerRef : option AbortController;
  aborted : list AbortController;
  next_controller : AbortController
}.

(** The cells at the first render: [useState([])], [useState(false)],
    [useState(null)], [useState(null)], [useRef(null)]. *)
Definition initial : Store :=
  {| events := []; isLoading := false; error := JNull; result := JNull;
     abortControllerRef := None; aborted := []; next_controller := 0 |}.

Definition setEvents (f : list jsval -> list jsval) (st : Store) : Store :=
  {| events := f (events st); isLoading := isLoading st; error := error st;
     result := result st; abortControllerRef := abortControllerRef st;
     aborted := aborted st; next_controller := next_controller st |}.

Definition setIsLoading (b : bool) (st : Store) : Store :=
  {| events := events st; isLoading := b; error := error st;
     result := result st; abortControllerRef := abortControllerRef st;
     aborted := aborted st; next_controller := next_controller st |}.

Definition setError (e : jsval) (st : Store) : Store :=
  {| events := events st; isLoading := isLoading st; error := e;
     result := result st; abortControllerRef := abortControllerRef st;
     aborted := aborted st; next_controller := next_controller st |}.

Definition setResult (r : jsval) (st : Store) : Store :=
  {| events := events st; isLoading := isLoading st; error := error st;
     result := r; abortControllerRef := abortControllerRef st;
     aborted := aborted st; next_controller := next_controller st |}.

(** [abortControllerRef.current = c]. *)
Definition set_current (c : option AbortController) (st : Store) : Store :=
  {| events := events st; isLoading := isLoading st; error := error st;
     result := result st; abortControllerRef := c;
     aborted := aborted st; next_controller := next_controller st |}.

(** [c.abort()]. *)
Definition abort (c : AbortController) (st : Store) : Store :=
  {| events := events st; isLoading := isLoading st; error := error st;
     result := result st; abortControllerRef := abortControllerRef st;
     aborted := c :: aborted st; next_controller := next_controller st |}.

(** [new AbortController()]. *)
Definition new_AbortController (st : Store) : AbortController * Store :=
  (next_controller st,
   {| events := events st; isLoading := isLoading st; error := error st;
      result := result st; abortControllerRef := abortControllerRef st;
      aborted := aborted st; next_controller := S (next_controller st) |}).

(** [const reset = useCallback(() => { ... }, [])]. *)
Definition reset (st : Store) : Store :=
  setIsLoading false (setResult JNull (setError JNull (setEvents (fun _ => []) st))).

(** *** The network as one call sees it *)

(** How the reads of [response.body.getReader()] end: [{done: true}], or
    a rejection. *)
Inductive ReadEnd : Type :=
| Done
| ReadRejects (t : thrown).

(** The body stream: the chunks [reader.read()] yields, then its end. *)
Record Body : Type := {
  chunks : list (list byte);
  ending : ReadEnd
}.

(** A [Response]: its status, what [response.text()] settles to, and
    [response.body] ([None] for [null]). *)
Record Response : Type := {
  status : N;
  text : string + thrown;
  body : option Body
}.

(** [response.ok]: the status is in the range 200-299. *)
Definition ok (r : Response) : bool :=
  N.leb 200 (status r) && N.leb (status r) 299.

Inductive FetchOutcome : Type :=
| FetchRejects (t : thrown)
| FetchResolves (r : Response).

(** The arguments of [fetch]: the [Authorization] header is present when
    a token is stored, the body when [body] is truthy (its
    [JSON.stringify] is not spelled out). *)
Record Request : Type := {
  url : string;
  method : Api.Method;
  authorization : option string;
  request_body : option jsval
}.

(** [localStorage.getItem('token')] and [fetch]. *)
Record Network : Type := {
  token : option string;
  fetch : Request -> FetchOutcome
}.

(** *** [executeStream] *)

(** Lines 70-81: abort the controller still referenced, create and
    reference a new one, clear the state. *)
Definition executeStream_begin (st : Store) : AbortController * Store :=
  let st :=
    match abortControllerRef st with
    | Some current => abort current st
    | None => st
    end in
  let '(abortController, st) := new_AbortController st in
  let st := set_current (Some abortController) st in
  let st := setIsLoading true st in
  let st := setEvents (fun _ => []) st in
  let st := setError JNull st in
  let st := setResult JNull st in
  (abortController, st).

(** Lines 133-148, the body of the inner [try]: [None] is an exception
    (the [TypeError] of [event.type] on [null]); it is raised before any
    state is written.  The pair is the store and the local
    [finalResult]. *)
Definition on_event (event : jsval) (st : Store) (finalResult : jsval)
  : option (Store * jsval) :=
  match Get event "type" with
  | None => None
  | Some type =>
      if is_string type "error" then
        Some (setError (member event "message") st, finalResult)
      else if is_string type "complete" then
        let agent := optional_Get (member event "data") "agent" in
        let '(st, finalResult) :=
          if truthy agent then (setResult agent st, agent)
          else (st, finalResult) in
        Some (setEvents (fun prev => prev ++ [event]) st, finalResult)
      else
        Some (setEvents (fun prev => prev ++ [event]) st, finalResult)
  end.

(** Lines 131-152, one iteration of [for (const line of lines)]; the
    [catch] only logs to the console. *)
Definition process_line (acc : Store * jsval) (line : string)
  : Store * jsval :=
  let '(st, finalResult) := acc in
  if startsWith "data: " line then
    match JSON_parse (slice 6 line) with
    | None => acc
    | Some event =>
        match on_event event st finalResult with
        | Some acc' => acc'
        | None => acc
        end
    end
  else acc.

(** The local variables of the read loop. *)
Record Reading : Type := {
  decoder : TextDecoder;
  buffer : string;
  finalResult : jsval
}.

(** Lines 112-115. *)
Definition start_reading : Reading :=
  {| decoder := new_TextDecoder; buffer := ""; finalResult := JNull |}.

(** Lines 124-153, one iteration of [while (true)] after a read that
    was not [done]. *)
Definition process_chunk (value : list byte) (rd : Reading) (st : Store)
  : Reading * Store :=
  let '(decoder', decoded) := decode (decoder rd) value in
  let buffer := (buffer rd ++ decoded)%string in
  let lines := split LF buffer in
  let buffer := last lines "" in
  let lines := removelast lines in
  let '(st, finalResult) := fold_left process_line lines (st, finalResult rd) in
  ({| decoder := decoder'; buffer := buffer; finalResult := finalResult |}, st).

(** How a block ends: with a value, or with an exception. *)
Inductive Completion : Type :=
| Return (v : jsval)
| Throw (t : thrown).

(** Lines 117-156: the loop over the reads, and [return finalResult]. *)
Fixpoint read_loop (reads : list (list byte)) (ending : ReadEnd)
  (rd : Reading) (st : Store) : Store * Completion :=
  match reads with
  | value :: rest =>
      let '(rd, st) := process_chunk value rd st in
      read_loop rest ending rd st
  | [] =>
      match ending with
      | Done => (st, Return (finalResult rd))
      | ReadRejects t => (st, Throw t)
      end
  end.

(** [new Error(message)]: the message is [ToString(message)], whose
    failure is a [TypeError] in place of the new error. *)
Definition new_Error (message : jsval) : thrown :=
  match ToString message with
  | Some m => Thrown_Error "Error" m
  | None => Thrown_Error "TypeError" TypeError_message
  end.

(** Lines 97-105: the message of the error thrown for a response that is
    not ok. *)
Definition errorMessage_of (status : N) (errorText : string) : jsval :=
  let errorMessage := JStr ("Request failed: " ++ decimal status) in
  match JSON_parse errorText with
  | None => errorMessage
  | Some errorJson =>
      match Get errorJson "detail" with
      | None => errorMessage
      | Some detail => or_else detail errorMessage
      end
  end.

(** Lines 86-156, the [try] block. *)
Definition try_block (outcome : FetchOutcome) (st : Store)
  : Store * Completion :=
  match outcome with
  | FetchRejects t => (st, Throw t)
  | FetchResolves response =>
      if negb (ok response) then
        match text response with
        | inr t => (st, Throw t)
        | inl errorText =>
            (st, Throw (new_Error (errorMessage_of (status response) errorText)))
        end
      else
        match body response with
        | None => (st, Throw (Thrown_Error "Error" "No response body"))
        | Some stream =>
            read_loop (chunks stream) (ending stream) start_reading st
        end
  end.

(** Lines 157-164, the [catch] block. *)
Definition catch_block (err : thrown) (st : Store) : Store * jsval :=
  match err with
  | Thrown_Error name message =>
      if String.eqb name "AbortError" then (st, JNull)
      else (setError (JStr message) st, JNull)
  | Thrown_other => (setError (JStr "Unknown error") st, JNull)
  end.

(** Lines 165-168, the [finally] block. *)
Definition finally_block (st : Store) : Store :=
  set_current None (setIsLoading false st).

(** Lines 156-168: how the [try] block's completion leaves the function,
    through [catch] when it threw and through [finally] always. *)
Definition leave (completion : Completion) (st : Store) : Store * jsval :=
  let '(st, value) :=
    match completion with
    | Return v => (st, v)
    | Throw err => catch_block err st
    end in
  (finally_block st, value).

(** Lines 85-168: [try], [catch] and [finally] on what the network did. *)
Definition settle (outcome : FetchOutcome) (st : Store) : Store * jsval :=
  let '(st, completion) := try_block outcome st in
  leave completion st.

(** The request of lines 86-94. *)
Definition request_of (net : Network) (url : string) (method : Api.Method)
  (body : jsval) : Request :=
  {| url := url; method := method; authorization := token net;
     request_body := if truthy body then Some body else None |}.

(** [executeStream(url, method, body)], run from its call to its return
    with no other call of the hook in between. *)
Definition executeStream (net : Network) (url : string)
  (method : Api.Method) (body : jsval) (st : Store) : Store * jsval :=
  let '(_, st) := executeStream_begin st in
  settle (fetch net (request_of net url method body)) st.

(** *** What the hook returns *)

(** [StreamingOperationResult]: the state of the render and the three
    callbacks, each a function of the store at the time it is called. *)
Record StreamingOperationResult : Type := {
  r_events : list jsval;
  r_isLoading : bool;
  r_error : jsval;
  r_result : jsval;
  executePost : Network -> string -> jsval -> Store -> Store * jsval;
  executeDelete : Network -> string -> Store -> Store * bool;
  r_reset : Store -> Store
}.

(** [useStreamingOperation()], at a render that sees the store
    [rendered].  [executeDelete] is created by this render: the [error]
    and [isLoading] of its last line are the constants of this render. *)
Definition useStreamingOperation (rendered : Store)
  : StreamingOperationResult :=
  let events := events rendered in
  let isLoading := isLoading rendered in
  let error := error rendered in
  let result := result rendered in
  {| r_events := events;
     r_isLoading := isLoading;
     r_error := error;
     r_result := result;
     executePost := fun net url body st =>
       executeStream net url Api.POST body st;
     executeDelete := fun net url st =>
       let '(st, _) := executeStream net url Api.DELETE JUndefined st in
       (st, is_null error && negb isLoading);
     r_reset := reset |}.

End WithRuntime.
End Hook.

(** ** The hook under overlapping calls *)

(** [executeStream] is an [async] function: between two of its [await]s
    other code of the page runs, a second call of the hook included.  A
    call in flight is the controller it created and the [await] it is
    suspended at; a step of the page either invokes the hook or settles the
    promise one call is waiting for. *)
Module Async.
Section WithRuntime.
Context {rt : Runtime}.
Import Hook.

(** The [await] a call is suspended at, with the local variables alive
    there: line 86 ([fetch]), line 97 ([response.text()], with the
    status), line 118 ([reader.read()]). *)
Inductive Awaiting : Type :=
| AwaitFetch
| AwaitText (status : N)
| AwaitRead (rd : Reading).

Record Call : Type := {
  controller : AbortController;
  awaiting : Awaiting
}.

(** What the awaited promise settles to. *)
Inductive Settlement : Type :=
| Fetched (status : N) (has_body : bool)
| TextRead (errorText : string)
| ReadValue (value : list byte)
| ReadDone
| Rejected (t : thrown).

(** The rejection of a [fetch] or a read whose signal was aborted. *)
Definition AbortError : thrown :=
  Thrown_Error "AbortError" "The operation was aborted.".

(** A call runs from the [await] that just settled to its next [await]
    ([inl]) or to its return ([inr]).  [None]: the settlement is not one
    of the promise awaited. *)
Definition resume (a : Awaiting) (s : Settlement) (st : Store)
  : option (Store * (Awaiting + jsval)) :=
  let returning (r : Store * jsval) := Some (fst r, inr (snd r)) in
  match a, s with
  | _, Rejected t => returning (leave (Throw t) st)
  | AwaitFetch, Fetched status has_body =>
      if negb (N.leb 200 status && N.leb status 299) then
        Some (st, inl (AwaitText status))
      else if has_body then Some (st, inl (AwaitRead start_reading))
      else returning (leave (Throw (Thrown_Error "Error" "No response body")) st)
  | AwaitText status, TextRead errorText =>
      returning (leave (Throw (new_Error (errorMessage_of status errorText))) st)
  | AwaitRead rd, ReadValue value =>
      let '(rd, st) := process_chunk value rd st in
      Some (st, inl (AwaitRead rd))
  | AwaitRead rd, ReadDone => returning (leave (Return (finalResult rd)) st)
  | _, _ => None
  end.

(** The page: the hook's cells, the calls in flight (oldest first) and
    the calls that returned, with their values. *)
Record World : Type := {
  store : Store;
  in_flight : list Call;
  returned : list (AbortController * jsval)
}.

Definition start : World :=
  {| store := initial; in_flight := []; returned := [] |}.

Inductive Step : Type :=
| Invoke
| Settle (c : AbortController) (s : Settlement).

Fixpoint find_call (c : AbortController) (calls : list Call)
  : option Awaiting :=
  match calls with
  | [] => None
  | call :: rest =>
      if Nat.eqb (controller call) c then Some (awaiting call)
      else find_call c rest
  end.

Fixpoint update_call (c : AbortController) (next : option Awaiting)
  (calls : list Call) : list Call :=
  match calls with
  | [] => []
  | call :: rest =>
      if Nat.eqb (controller call) c then
        match next with
        | Some a => {| controller := c; awaiting := a |} :: rest
        | None => rest
        end
      else call :: update_call c next rest
  end.

(** One step; [None] when the step names no call in flight or a
    settlement its call does not await. *)
Definition step (w : World) (e : Step) : option World :=
  match e with
  | Invoke =>
      let '(c, st) := executeStream_begin (store w) in
      Some {| store := st;
              in_flight := in_flight w ++ [{| controller := c; awaiting := AwaitFetch |}];
              returned := returned w |}
  | Settle c s =>
      match find_call c (in_flight w) with
      | None => None
      | Some a =>
          match resume a s (store w) with
          | None => None
          | Some (st, inl a') =>
              Some {| store := st;
                      in_flight := update_call c (Some a') (in_flight w);
                      returned := returned w |}
          | Some (st, inr value) =>
              Some {| store := st;
                      in_flight := update_call c None (in_flight w);
                      returned := returned w ++ [(c, value)] |}
          end
      end
  end.

Fixpoint steps (w : World) (trace : list Step) : option World :=
  match trace with
  | [] => Some w
  | e :: rest =>
      match step w e with
      | Some w' => steps w' rest
      | None => None
      end
  end.

Definition is_in_flight (c : AbortController) (w : World) : bool :=
  match find_call c (in_flight w) with Some _ => true | None => false end.

Definition is_aborted (c : AbortController) (w : World) : bool :=
  existsb (Nat.eqb c) (aborted (store w)).

(** The settlements one call receives when the network does [outcome]. *)
Definition script (outcome : FetchOutcome) : list Settlement :=
  match outcome with
  | FetchRejects t => [Rejected t]
  | FetchResolves r =>
      if negb (ok r) then
        [Fetched (status r) (match body r with Some _ => true | None => false end);
         match text r with inl s => TextRead s | inr t => Rejected t end]
      else
        match body r with
        | None => [Fetched (status r) false]
        | Some b =>
            Fetched (status r) true :: map ReadValue (chunks b)
              ++ [match ending b with Done => ReadDone | ReadRejects t => Rejected t end]
        end
  end.

End WithRuntime.
End Async.

(** ** [components/common/OperationProgress.tsx] *)
Module Progress.

Inductive Icon : Type :=
| ChevronRight | ChevronDown | CheckCircle2 | AlertCircle | Blank.

(** [getEventIcon]: a [switch] on [event.type]. *)
Definition getEventIcon (event : jsval) : Icon :=
  let type := member event "type" in
  if is_string type "span_start" then ChevronRight
  else if is_string type "span_end" then ChevronDown
  else if is_string type "complete" then CheckCircle2
  else if is_string type "error" then AlertCircle
  else Blank.

(** One row of the event list: its icon, its [className] and the message
    shown (the timestamp and duration cells format dates and fractions and
    are left out). *)
Record Row : Type := {
  icon : Icon;
  className : string;
  message : jsval
}.

Definition row_of (event : jsval) : Row :=
  let type := member event "type" in
  {| icon := getEventIcon event;
     className :=
       ("flex items-start gap-1.5 py-0.5 "
        ++ (if is_string type "error" then "text-red-600" else "text-gray-700")
        ++ " "
        ++ (if is_string type "complete" then "text-green-700 font-medium" else ""))%string;
     message := member event "message" |}.

(** [events.map((event, index) => ...)]: one row for each event, in
    order. *)
Definition event_list (events : list jsval) : list Row := map row_of events.

End Progress.

(** ** [pages/Dashboard.tsx] and [pages/AgentDetail.tsx] *)
Module Pages.
Import Types.

(** The click handlers of the two pages, by name; a dashboard handler is
    bound to the agent of its card. *)
Inductive Handler : Type :=
| handleStartAgentStreaming (agent_id : string)
| handleStopAgentStreaming (agent_id : string)
| handleDeleteAgentStreaming (agent_id : string)
| handleStartStreaming
| handleStopStreaming
| handleDeleteStreaming
| handleRefreshStatus
| archiveMutation_mutate
| navigate_dashboard.

(** What a component returns, as far as the actions go: buttons with
    their [onClick] and [isLoading], the status badge, links and text. *)
Inductive Node : Type :=
| Button (onClick : Handler) (isLoading : bool)
| StatusBadge (badge : Badge.Rendered)
| Link (to : string) (texts : list string)
| Text (s : string).

(** [cond && <node/>]. *)
Definition when (cond : bool) (nodes : list Node) : list Node :=
  if cond then nodes else [].

(** [agent.vm_status === 'literal']. *)
Definition status_is (agent : Agent) (lit : string) : bool :=
  String.eqb (literal (vm_status agent)) lit.

(** [function AgentCard({ agent, onStart, onStop, onDelete })]. *)
Definition AgentCard (agent : Agent) (onStart onStop onDelete : Handler)
  : list Node :=
  [ Link ("/agents/" ++ id agent) [name agent; platform_type agent];
    StatusBadge (Badge.StatusBadge (vm_status agent)) ]
  ++ match current_task agent with
     | Some task => when (negb (String.eqb task "")) [Text task]
     | None => []
     end
  ++ when (status_is agent "stopped") [Button onStart false]
  ++ when (status_is agent "running") [Button onStop false]
  ++ [Button onDelete false].

(** The "Active Agents" grid of [Dashboard]: one card for each agent. *)
Definition Dashboard_cards (agents : list Agent) : list Node :=
  flat_map
    (fun agent =>
       AgentCard agent
         (handleStartAgentStreaming (id agent))
         (handleStopAgentStreaming (id agent))
         (handleDeleteAgentStreaming (id agent)))
    agents.

(** The header of [AgentDetail], rendered once the agent is loaded;
    [loading] is [streamingOp.isLoading], [archiving] is
    [archiveMutation.isPending]. *)
Definition AgentDetail_header (agent : Agent) (loading archiving : bool)
  : list Node :=
  [ Button navigate_dashboard false;
    Text (name agent);
    StatusBadge (Badge.StatusBadge (vm_status agent));
    Button handleRefreshStatus false ]
  ++ when (status_is agent "stopped") [Button handleStartStreaming loading]
  ++ when (status_is agent "running") [Button handleStopStreaming loading]
  ++ [ Button archiveMutation_mutate archiving;
       Button handleDeleteStreaming loading ].

(** The handlers a rendering offers: those of its buttons. *)
Definition handlers (nodes : list Node) : list Handler :=
  flat_map (fun n => match n with Button h _ => [h] | _ => [] end) nodes.

(** [handleDeleteStreaming] of [AgentDetail], for a loaded agent: the
    handler belongs to the render that saw the store [rendered], and with
    it the [streamingOp] it calls.  [confirmed] is the answer to
    [confirm(...)].  The result tells whether [navigate('/dashboard')]
    is scheduled. *)
Definition run_handleDeleteStreaming {rt : Runtime} (net : Hook.Network)
  (agent : Agent) (confirmed : bool) (rendered st : Hook.Store)
  : Hook.Store * bool :=
  let streamingOp := Hook.useStreamingOperation rendered in
  if negb confirmed then (st, false)
  else
    let st := Hook.r_reset streamingOp st in
    let '(st, success) :=
      Hook.executeDelete streamingOp net (Api.deleteUrl (id agent)) st in
    (st, success).

End Pages.

(** ** A runtime to compute with *)

(** The theorems below hold for every [Runtime].  To run the model on
    concrete streams, [Sample] supplies one: a [JSON.parse] for the JSON
    whose numbers are integers of at most fifteen digits and whose strings
    have no escapes (anything else is reported as a syntax error), and a
    [TextDecoder] for ASCII streams. *)
Module Sample.

Definition DQUOTE : ascii := "034"%char.

Definition is_ws (c : ascii) : bool :=
  match nat_of_ascii c with
  | 32 | 9 | 10 | 13 => true
  | _ => false
  end.

Definition is_digit (c : ascii) : bool :=
  let n := nat_of_ascii c in Nat.leb 48 n && Nat.leb n 57.

Fixpoint skip_ws (s : string) : string :=
  match s with
  | String c rest => if is_ws c then skip_ws rest else s
  | EmptyString => s
  end.

(** The characters up to the closing quote, and what follows it. *)
Fixpoint string_body (s : string) : option (string * string) :=
  match s with
  | EmptyString => None
  | String c rest =>
      if Ascii.eqb c DQUOTE then Some (EmptyString, rest)
      else if Ascii.eqb c "\"%char || Nat.ltb (nat_of_ascii c) 32 then None
      else match string_body rest with
           | Some (str, rest') => Some (String c str, rest')
           | None => None
           end
  end.

Fixpoint digits (s : string) : string * string :=
  match s with
  | String c rest =>
      if is_digit c then let '(ds, rest') := digits rest in (String c ds, rest')
      else (EmptyString, s)
  | EmptyString => (EmptyString, s)
  end.

(** An integer literal: [0], or a non-zero digit and more digits, with
    an optional minus sign; no fraction and no exponent may follow. *)
Definition number (s : string) : option (jsval * string) :=
  let '(negative, s) :=
    match s with
    | String "-"%char rest => (true, rest)
    | _ => (false, s)
    end in
  let '(ds, rest) := digits s in
  let well_formed :=
    match ds with
    | EmptyString => false
    | String "0"%char EmptyString => true
    | String "0"%char _ => false
    | _ => Nat.leb (String.length ds) 15
    end in
  let stops :=
    match rest with
    | String c _ =>
        negb (Ascii.eqb c "."%char || Ascii.eqb c "e"%char || Ascii.eqb c "E"%char)
    | EmptyString => true
    end in
  if well_formed && stops then
    Some (JNum (if negative && negb (String.eqb ds "0")
                then String "-"%char ds else ds), rest)
  else None.

Definition keyword (word : string) (v : jsval) (s : string)
  : option (jsval * string) :=
  if String.prefix word s then Some (v, slice (String.length word) s)
  else None.

(** The elements of an array after its opening bracket. *)
Fixpoint elements (value : string -> option (jsval * string)) (fuel : nat)
  (s : string) : option (list jsval * string) :=
  match fuel with
  | O => None
  | S fuel =>
      match value s with
      | None => None
      | Some (v, rest) =>
          match skip_ws rest with
          | String ","%char rest' =>
              match elements value fuel rest' with
              | Some (vs, rest'') => Some (v :: vs, rest'')
              | None => None
              end
          | String "]"%char rest' => Some ([v], rest')
          | _ => None
          end
      end
  end.

(** The members of an object after its opening brace. *)
Fixpoint members (value : string -> option (jsval * string)) (fuel : nat)
  (s : string) : option (list (string * jsval) * string) :=
  match fuel with
  | O => None
  | S fuel =>
      match skip_ws s with
      | String c rest =>
          if Ascii.eqb c DQUOTE then
            match string_body rest with
            | None => None
            | Some (key, rest) =>
                match skip_ws rest with
                | String ":"%char rest =>
                    match value rest with
                    | None => None
                    | Some (v, rest) =>
                        match skip_ws rest with
                        | String ","%char rest' =>
                            match members value fuel rest' with
                            | Some (ms, rest'') => Some ((key, v) :: ms, rest'')
                            | None => None
                            end
                        | String "}"%char rest' => Some ([(key, v)], rest')
                        | _ => None
                        end
                    end
                | _ => None
                end
            end
          else None
      | EmptyString => None
      end
  end.

Fixpoint value (fuel : nat) (s : string) : option (jsval * string) :=
  match fuel with
  | O => None
  | S fuel =>
      match skip_ws s with
      | EmptyString => None
      | String c rest as s' =>
          if Ascii.eqb c DQUOTE then
            match string_body rest with
            | Some (str, rest') => Some (JStr str, rest')
            | None => None
            end
          else if Ascii.eqb c "["%char then
            match skip_ws rest with
            | String "]"%char rest' => Some (JArr [], rest')
            | _ =>
                match elements (value fuel) fuel rest with
                | Some (vs, rest') => Some (JArr vs, rest')
                | None => None
                end
            end
          else if Ascii.eqb c "{"%char then
            match skip_ws rest with
            | String "}"%char rest' => Some (JObj [], rest')
            | _ =>
                match members (value fuel) fuel rest with
                | Some (ms, rest') => Some (JObj ms, rest')
                | None => None
                end
            end
          else if Ascii.eqb c "n"%char then keyword "null" JNull s'
          else if Ascii.eqb c "t"%char then keyword "true" (JBool true) s'
          else if Ascii.eqb c "f"%char then keyword "false" (JBool false) s'
          else number s'
      end
  end.

Definition parse (s : string) : option jsval :=
  match value (S (String.length s)) s with
  | Some (v, rest) =>
      match skip_ws rest with
      | EmptyString => Some v
      | _ => None
      end
  | None => None
  end.

#[export] Instance runtime : Runtime := {|
  JSON_parse := parse;
  TextDecoder := unit;
  new_TextDecoder := tt;
  decode := fun d value => (d, string_of_list_byte value);
  TypeError_message := "Cannot convert object to primitive value"
|}.

(** Sample texts are written with an apostrophe where JSON has a double
    quote. *)
Fixpoint json (s : string) : string :=
  match s with
  | EmptyString => EmptyString
  | String c rest =>
      String (if Ascii.eqb c "'"%char then DQUOTE else c) (json rest)
  end.

(** A chunk of the body: the bytes of a text, a line feed written as
    a vertical bar. *)
Fixpoint lines (s : string) : string :=
  match s with
  | EmptyString => EmptyString
  | String c rest =>
      String (if Ascii.eqb c "|"%char then LF else c) (lines rest)
  end.

Definition chunk (s : string) : list byte :=
  list_byte_of_string (lines (json s)).

(** A network that answers every request with the same outcome. *)
Definition always (outcome : Hook.FetchOutcome) : Hook.Network :=
  {| Hook.token := None; Hook.fetch := fun _ => outcome |}.

(** A 200 response streaming the given chunks to the end. *)
Definition streams (chunks : list (list byte)) : Hook.FetchOutcome :=
  Hook.FetchResolves
    {| Hook.status := 200; Hook.text := inl "";
       Hook.body := Some {| Hook.chunks := chunks; Hook.ending := Hook.Done |} |}.

(** A response with the given status and body text. *)
Definition answers (status : N) (text : string) : Hook.FetchOutcome :=
  Hook.FetchResolves
    {| Hook.status := status; Hook.text := inl (json text);
       Hook.body := Some {| Hook.chunks := [list_byte_of_string (json text)];
                            Hook.ending := Hook.Done |} |}.

(** Three bodies as a server sends them, each event a [data:] line
    followed by an empty line.  [created] is cut in the middle of a line. *)
Definition created : list (list byte) :=
  [ chunk "data: {'type':'span_start','message':'Provisioning VM','depth':0}||";
    chunk "data: {'type':'span_end','message':'Provisioning VM','depth':0,'duration_ms':1200}||data: {'type':'comp";
    chunk "lete','message':'Agent created','data':{'agent':{'id':'a1','vm_status':'running'}}}||" ].

Definition failed : list (list byte) :=
  [ chunk "data: {'type':'log','message':'Deleting bucket'}||";
    chunk "data: {'type':'error','message':'bucket teardown failed'}||" ].

Definition quiet : list (list byte) :=
  [ chunk "data: {'type':'log','message':'still working'}||" ].

Definition the_complete_event : jsval :=
  JObj [ ("type", JStr "complete"); ("message", JStr "Agent created");
         ("data", JObj [("agent", JObj [("id", JStr "a1");
                                        ("vm_status", JStr "running")])]) ].

Definition the_error_event : jsval :=
  JObj [ ("type", JStr "error"); ("message", JStr "bucket teardown failed") ].

(** An agent in a given status. *)
Definition agent (status : Types.AgentStatus) : Types.Agent :=
  {| Types.id := "a1"; Types.name := "agent1"; Types.vm_id := "vm-1";
     Types.vm_size := "e2-small"; Types.vm_status := status;
     Types.vm_internal_ip := None; Types.vm_external_ip := None;
     Types.vm_zone := None; Types.cloud_provider := "gcp";
     Types.bucket_id := "bucket-1"; Types.current_task := None;
     Types.platform_type := "openclaw"; Types.platform_version := None;
     Types.template_id := None; Types.gateway_port := 8080;
     Types.created_at := "2026-01-01T00:00:00Z";
     Types.updated_at := "2026-01-01T00:00:00Z";
     Types.cloud_console_url := None; Types.ssh_url := None;
     Types.ssh_command := None |}.

End Sample.

(** ** What a response body delivers *)

(** The vocabulary of the statements on the read loop: the text a list of
    chunks decodes to, its lines, and the events those lines carry. *)
Module Stream.
Section WithRuntime.
Context {rt : Runtime}.

(** The text the decoder has produced after the given chunks. *)
Fixpoint decoded (d : TextDecoder) (chunks : list (list byte)) : string :=
  match chunks with
  | [] => ""
  | value :: rest =>
      let '(d', s) := decode d value in (s ++ decoded d' rest)%string
  end.

Definition received_text (chunks : list (list byte)) : string :=
  decoded new_TextDecoder chunks.

(** The lines of a text that a line feed terminates. *)
Definition complete_lines (text : string) : list string :=
  removelast (split LF text).

(** Whether a text is free of line feeds. *)
Fixpoint no_LF (s : string) : bool :=
  match s with
  | EmptyString => true
  | String c rest => negb (Ascii.eqb c LF) && no_LF rest
  end.

(** The value a line carries: that of a ["data: "] line whose rest is
    JSON, if it is a value with properties. *)
Definition parse_line (line : string) : option jsval :=
  if startsWith "data: " line then
    match JSON_parse (slice 6 line) with
    | Some event => if nullish event then None else Some event
    | None => None
    end
  else None.

Definition events_of_lines (lines : list string) : list jsval :=
  flat_map
    (fun line => match parse_line line with Some e => [e] | None => [] end)
    lines.

(** The events received on the response channel, in arrival order. *)
Definition received_events (chunks : list (list byte)) : list jsval :=
  events_of_lines (complete_lines (received_text chunks)).

Definition is_error (event : jsval) : bool :=
  is_string (member event "type") "error".

Definition is_complete (event : jsval) : bool :=
  is_string (member event "type") "complete".

(** A terminal event: [complete] or [error]. *)
Definition terminal (event : jsval) : bool :=
  is_error event || is_complete event.

(** [event.data?.agent]. *)
Definition agent_of (event : jsval) : jsval :=
  optional_Get (member event "data") "agent".

(** The inner [try] on one received event, as a step on the store and
    [finalResult]. *)
Definition deliver (acc : Hook.Store * jsval) (event : jsval)
  : Hook.Store * jsval :=
  match Hook.on_event event (fst acc) (snd acc) with
  | Some acc' => acc'
  | None => acc
  end.

(** How the read loop completes once the reads end. *)
Definition completion_of (ending : Hook.ReadEnd) (finalResult : jsval)
  : Hook.Completion :=
  match ending with
  | Hook.Done => Hook.Return finalResult
  | Hook.ReadRejects t => Hook.Throw t
  end.

End WithRuntime.

(** A decoder in streaming mode yields, over any split of its input, the
    text it yields for the whole: this is what [{stream: true}] is for. *)
Class StreamingDecoder (rt : Runtime) : Prop := {
  decode_nil : forall d, decode d [] = (d, "");
  decode_app : forall d a b,
    decode d (a ++ b) =
    let '(d1, s1) := decode d a in
    let '(d2, s2) := decode d1 b in
    (d2, (s1 ++ s2)%string)
}.

End Stream.

(** ** What the received events leave behind *)

(** The two values the read loop accumulates over the received events:
    [data.agent] of the last [complete] event that carries one, and the
    [message] of the last [error] event; [null] when there is none. *)
Module Outcome.

(** The event is a [complete] event whose [data.agent] is truthy. *)
Definition carries_agent (event : jsval) : bool :=
  Stream.is_complete event && truthy (Stream.agent_of event).

Definition next_agent (acc event : jsval) : jsval :=
  if carries_agent event then Stream.agent_of event else acc.

Definition next_error (acc event : jsval) : jsval :=
  if Stream.is_error event then member event "message" else acc.

Definition last_agent (events : list jsval) : jsval :=
  fold_left next_agent events JNull.

Definition last_error (events : list jsval) : jsval :=
  fold_left next_error events JNull.

(** The error state a streamed call ends with, by how its reads ended:
    the [catch] block overwrites it unless the reads ended with [done] or
    with an abort. *)
Definition error_after (ending : Hook.ReadEnd) (events : list jsval) : jsval :=
  match ending with
  | Hook.Done => last_error events
  | Hook.ReadRejects (Thrown_Error name message) =>
      if String.eqb name "AbortError" then last_error events
      else JStr message
  | Hook.ReadRejects Thrown_other => JStr "Unknown error"
  end.

(** The value a streamed call returns, by how its reads ended. *)
Definition value_after (ending : Hook.ReadEnd) (events : list jsval) : jsval :=
  match ending with
  | Hook.Done => last_agent events
  | Hook.ReadRejects _ => JNull
  end.

End Outcome.

(** ** [OperationProgress], the whole component *)
Module Panel.

(** The props; [isComplete] left out is [false], [maxHeight] left out is
    ['300px'], [title] left out is [None]. *)
Record Props : Type := {
  events : list jsval;
  isLoading : bool;
  error : jsval;
  isComplete : bool;
  maxHeight : option string;
  title : option string
}.

(** What [{cond && <x/>}] leaves in the tree when [cond] is a falsy value:
    [false], [null], [undefined] and the empty string leave nothing, a
    falsy number leaves its digits. *)
Inductive Child (A : Type) : Type :=
| Nothing
| Digits (text : string)
| Element (x : A).
Arguments Nothing {A}.
Arguments Digits {A} text.
Arguments Element {A} x.

(** [v && <x/>] as a child. *)
Definition and_then {A : Type} (v : jsval) (x : A) : Child A :=
  if truthy v then Element x
  else match v with
       | JNum r => Digits r
       | _ => Nothing
       end.

Inductive HeaderIcon : Type := Loader2 | AlertCircle | CheckCircle2.

(** What the component returns: the three icon slots of the header, the
    title, the counter, the list's height, its rows, whether the waiting
    row is shown, and the error panel. *)
Record View : Type := {
  spinner : bool;
  alert : Child HeaderIcon;
  check : bool;
  title_text : string;
  counter : option string;
  list_height : string;
  rows : list Progress.Row;
  waiting : bool;
  error_panel : Child jsval
}.

(** [export default function OperationProgress(props)]; [None] is
    [return null]. *)
Definition OperationProgress (props : Props) : option View :=
  if Nat.eqb (length (events props)) 0
     && negb (isLoading props) && negb (truthy (error props))
  then None
  else
    Some
      {| spinner := isLoading props;
         alert :=
           if isLoading props then Nothing
           else and_then (error props) AlertCircle;
         check :=
           negb (isLoading props) && negb (truthy (error props))
           && isComplete props;
         title_text :=
           match title props with
           | Some t =>
               if negb (String.eqb t "") then t
               else if isLoading props then "Operation in progress..."
               else if truthy (error props) then "Operation failed"
               else "Operation complete"
           | None =>
               if isLoading props then "Operation in progress..."
               else if truthy (error props) then "Operation failed"
               else "Operation complete"
           end;
         counter :=
           if Nat.ltb 0 (length (events props))
           then Some (decimal (N.of_nat (length (events props))) ++ " events")%string
           else None;
         list_height :=
           match maxHeight props with Some h => h | None => "300px" end;
         rows := Progress.event_list (events props);
         waiting := isLoading props;
         error_panel := and_then (error props) (error props) |}.

(** The props both pages pass, from the [streamingOp] of the render. *)
Definition progress_props {rt : Runtime}
  (streamingOp : Hook.StreamingOperationResult) : Props :=
  {| events := Hook.r_events streamingOp;
     isLoading := Hook.r_isLoading streamingOp;
     error := Hook.r_error streamingOp;
     isComplete :=
       truthy (Hook.r_result streamingOp)
       || (existsb (fun e => is_string (member e "type") "complete")
             (Hook.r_events streamingOp)
           && negb (truthy (Hook.r_error streamingOp)));
     maxHeight := Some "400px";
     title := None |}.

End Panel.

(** ** [pages/Dashboard.tsx], the handlers *)
Module DashboardPage.

(** The page: its three [useState] cells, the hook's store, and the query
    keys passed to [queryClient.invalidateQueries], oldest first. *)
Record State : Type := {
  isCreateModalOpen : bool;
  isProgressModalOpen : bool;
  progressTitle : string;
  hook : Hook.Store;
  invalidated : list (list string)
}.

(** [`"${s}"`]. *)
Definition quoted (s : string) : string :=
  String "034"%char (s ++ String "034"%char "")%string.

(** [export interface CreateAgentRequest], as far as the page fills it. *)
Record CreateAgentRequest : Type := {
  name : string;
  platform_type : option string;
  template_id : option string
}.

Definition field (key : string) (v : option string) : list (string * jsval) :=
  match v with Some s => [(key, JStr s)] | None => [] end.

(** The request as the object literal the page builds. *)
Definition as_object (data : CreateAgentRequest) : jsval :=
  JObj ([("name", JStr (name data))]
        ++ field "platform_type" (platform_type data)
        ++ field "template_id" (template_id data)).

(** The four state updates that open the progress modal. *)
Definition open_progress (title : string) (s : State) : State :=
  {| isCreateModalOpen := isCreateModalOpen s;
     isProgressModalOpen := true;
     progressTitle := title;
     hook := Hook.reset (hook s);
     invalidated := invalidated s |}.

(** [await streamingOp.executePost(url, body)] and
    [if (result) queryClient.invalidateQueries({ queryKey: ['agents'] })]. *)
Definition post_and_refresh {rt : Runtime} (net : Hook.Network)
  (rendered : Hook.Store) (url : string) (body : jsval) (s : State) : State :=
  let '(hook', result) :=
    Hook.executePost (Hook.useStreamingOperation rendered) net url body (hook s) in
  {| isCreateModalOpen := isCreateModalOpen s;
     isProgressModalOpen := isProgressModalOpen s;
     progressTitle := progressTitle s;
     hook := hook';
     invalidated :=
       if truthy result then invalidated s ++ [["agents"]] else invalidated s |}.

(** [handleCreateAgentStreaming(data)]. *)
Definition handleCreateAgentStreaming {rt : Runtime} (net : Hook.Network)
  (rendered : Hook.Store) (data : CreateAgentRequest) (s : State) : State :=
  let s :=
    {| isCreateModalOpen := false;
       isProgressModalOpen := isProgressModalOpen s;
       progressTitle := progressTitle s;
       hook := hook s;
       invalidated := invalidated s |} in
  let s := open_progress ("Creating agent " ++ quoted (name data) ++ "...") s in
  post_and_refresh net rendered Api.createUrl (as_object data) s.

(** [handleStartAgentStreaming(agent)]. *)
Definition handleStartAgentStreaming {rt : Runtime} (net : Hook.Network)
  (rendered : Hook.Store) (agent : Types.Agent) (s : State) : State :=
  let s := open_progress
             ("Starting agent " ++ quoted (Types.name agent) ++ "...") s in
  post_and_refresh net rendered (Api.startUrl (Types.id agent)) JUndefined s.

(** [handleStopAgentStreaming(agent)]. *)
Definition handleStopAgentStreaming {rt : Runtime} (net : Hook.Network)
  (rendered : Hook.Store) (agent : Types.Agent) (s : State) : State :=
  let s := open_progress
             ("Stopping agent " ++ quoted (Types.name agent) ++ "...") s in
  post_and_refresh net rendered (Api.stopUrl (Types.id agent)) JUndefined s.

(** [handleDeleteAgentStreaming(agent)]; [confirmed] is the answer to
    [confirm(...)]. *)
Definition handleDeleteAgentStreaming {rt : Runtime} (net : Hook.Network)
  (rendered : Hook.Store) (agent : Types.Agent) (confirmed : bool)
  (s : State) : State :=
  if negb confirmed then s
  else
    let s := open_progress
               ("Deleting agent " ++ quoted (Types.name agent) ++ "...") s in
    let '(hook', _) :=
      Hook.executeDelete (Hook.useStreamingOperation rendered) net
        (Api.deleteUrl (Types.id agent)) (hook s) in
    {| isCreateModalOpen := isCreateModalOpen s;
       isProgressModalOpen := isProgressModalOpen s;
       progressTitle := progressTitle s;
       hook := hook';
       invalidated := invalidated s ++ [["agents"]] |}.

(** [handleCreateAgent(e)]: the form's name, on the platform [openclaw]. *)
Definition handleCreateAgent {rt : Runtime} (net : Hook.Network)
  (rendered : Hook.Store) (form_name : string) (s : State) : State :=
  handleCreateAgentStreaming net rendered
    {| name := form_name; platform_type := Some "openclaw";
       template_id := None |} s.

(** The [onClose] of the progress modal, at a render that sees
    [rendered]. *)
Definition close_progress (rendered : Hook.Store) (s : State) : State :=
  if negb (Hook.isLoading rendered) then
    {| isCreateModalOpen := isCreateModalOpen s;
       isProgressModalOpen := false;
       progressTitle := progressTitle s;
       hook := hook s;
       invalidated := invalidated s |}
  else s.

End DashboardPage.

(** ** The read loop's variables after some reads *)
Module Feed.
Section WithRuntime.
Context {rt : Runtime}.

(** The local variables and the store after the loop body has run on
    each of the given chunks. *)
Definition feed (reads : list (list byte)) (start : Hook.Reading * Hook.Store)
  : Hook.Reading * Hook.Store :=
  fold_left (fun acc value => Hook.process_chunk value (fst acc) (snd acc))
    reads start.

End WithRuntime.

(** [parts.join(sep)] for a one-character separator. *)
Fixpoint join (sep : ascii) (parts : list string) : string :=
  match parts with
  | [] => ""
  | p :: rest =>
      match rest with
      | [] => p
      | _ :: _ => (p ++ String sep (join sep rest))%string
      end
  end.

End Feed.

(** ** What every reachable state of the page satisfies *)
Module Reachable.
Section WithRuntime.
Context {rt : Runtime}.
Import Hook Async.

(** The controllers of the calls in flight. *)
Definition flying (w : World) : list AbortController :=
  map controller (in_flight w).

(** The invariant of [Async.step]: every controller in flight or aborted
    was created, no two calls in flight share a controller, no controller
    is aborted twice, the reference holds the controller created last,
    which is in flight and not aborted, and [isLoading] is true exactly
    when the reference is set. *)
Definition invariant (w : World) : Prop :=
  (forall c, In c (flying w) -> c < next_controller (store w))
  /\ NoDup (flying w)
  /\ (forall c, In c (aborted (store w)) -> c < next_controller (store w))
  /\ NoDup (aborted (store w))
  /\ (forall c, abortControllerRef (store w) = Some c ->
        S c = next_controller (store w)
        /\ In c (flying w)
        /\ ~ In c (aborted (store w)))
  /\ (isLoading (store w) = true <-> abortControllerRef (store w) <> None).

End WithRuntime.
End Reachable.

(** ** The audit table over a history of statements *)
Module Ledger.
Import Storage.

(** The commands that reach the executor over the statements of a
    history, in order. *)
Definition reaching (rules : list Rule) (statements : list Statement)
  : list Statement :=
  flat_map (rewrite rules) statements.

(** An [UPDATE] or a [DELETE] against [audit_logs]. *)
Definition tampers (s : Statement) : bool :=
  String.eqb (table_of s) "audit_logs"
  && match s with
     | Update _ _ _ | Delete _ _ => true
     | Insert _ _ | Truncate _ => false
     end.

End Ledger.

(** ** [context/AuthContext.tsx] *)
Module Session.
Import Js.

(** What the provider reads and writes outside React: the [token] item
    of [localStorage] and the last assignment to
    [window.location.href]. *)
Record Browser : Type := {
  token : option string;
  href : option string
}.

(** [user] and [isLoading] (lines 17-18). *)
Record AuthState : Type := {
  user : jsval;
  isLoading : bool
}.

Definition initial : AuthState := {| user := JNull; isLoading := true |}.

(** [isAuthenticated: !!user] (line 62). *)
Definition isAuthenticated (s : AuthState) : bool := truthy (user s).

(** How a request of the client settles: [auth.me()] resolves with
    [r.data]. *)
Inductive Answer : Type :=
| Resolves (data : jsval)
| Rejects.

Definition setUser (u : jsval) (s : AuthState) : AuthState :=
  {| user := u; isLoading := isLoading s |}.

Definition setIsLoading (b : bool) (s : AuthState) : AuthState :=
  {| user := user s; isLoading := b |}.

Definition removeItem (b : Browser) : Browser :=
  {| token := None; href := href b |}.

Definition setItem (t : string) (b : Browser) : Browser :=
  {| token := Some t; href := href b |}.

Definition assign_href (to : string) (b : Browser) : Browser :=
  {| token := token b; href := Some to |}.

(** [if (token)] on the result of [getItem]: [null] and the empty
    string are falsy. *)
Definition has_token (b : Browser) : bool :=
  match token b with
  | Some t => negb (String.eqb t "")
  | None => false
  end.

(** [auth.me().then(setUser).catch(() => removeItem('token'))]. *)
Definition fetch_user (me : Answer) (w : Browser * AuthState)
  : Browser * AuthState :=
  match me with
  | Resolves data => (fst w, setUser data (snd w))
  | Rejects => (removeItem (fst w), snd w)
  end.

(** The mount effect (lines 20-32), once its promise chain settled. *)
Definition mount_effect (me : Answer) (w : Browser * AuthState)
  : Browser * AuthState :=
  if has_token (fst w) then
    let w := fetch_user me w in
    (fst w, setIsLoading false (snd w))
  else (fst w, setIsLoading false (snd w)).

(** [logout] (lines 38-47): the answer of [auth.logout()] is ignored. *)
Definition logout (answer : Answer) (w : Browser * AuthState)
  : Browser * AuthState :=
  let w := match answer with Resolves _ => w | Rejects => w end in
  (assign_href "/" (removeItem (fst w)), setUser JNull (snd w)).

(** [setToken] (lines 49-56), once [auth.me()] settled. *)
Definition setToken (t : string) (me : Answer) (w : Browser * AuthState)
  : Browser * AuthState :=
  fetch_user me (setItem t (fst w), snd w).

End Session.

(** ** [App.tsx] *)
Module Router.
Import Session.

Inductive Page : Type :=
| Landing | AuthCallback | Dashboard | AgentDetail | SavedAgents
| Credentials | AuditLogs.

(** What a route's element renders: the spinner of [ProtectedRoute], a
    [<Navigate to replace />], a page on its own, or a page inside
    [<Layout>]. *)
Inductive Element : Type :=
| Spinner
| Navigate (to : string)
| Bare (page : Page)
| InLayout (page : Page).

(** [ProtectedRoute] (lines 12-28). *)
Definition ProtectedRoute (auth : AuthState) (children : Element)
  : Element :=
  if isLoading auth then Spinner
  else if negb (isAuthenticated auth) then Navigate "/"
  else children.

(** The [<Route path element />] table of [AppRoutes] (lines 30-89). *)
Definition AppRoutes (auth : AuthState) : list (string * Element) :=
  [ ("/", if isAuthenticated auth then Navigate "/dashboard"
          else Bare Landing);
    ("/auth/callback", Bare AuthCallback);
    ("/dashboard", ProtectedRoute auth (InLayout Dashboard));
    ("/agents/:agentId", ProtectedRoute auth (InLayout AgentDetail));
    ("/saved-agents", ProtectedRoute auth (InLayout SavedAgents));
    ("/credentials", ProtectedRoute auth (InLayout Credentials));
    ("/logs", ProtectedRoute auth (InLayout AuditLogs)) ].

Fixpoint element_of (path : string) (routes : list (string * Element))
  : option Element :=
  match routes with
  | [] => None
  | (p, e) :: rest => if String.eqb p path then Some e else element_of path rest
  end.

(** The element of the route whose [path] is the one matched; [None]
    when the table has no such route.  The target of a [Navigate] is
    the [path] of a route written without parameters, which matches
    itself. *)
Definition render (auth : AuthState) (path : string) : option Element :=
  element_of path (AppRoutes auth).

Definition is_Navigate (e : Element) : bool :=
  match e with Navigate _ => true | _ => false end.

(** The paths of the table. *)
Definition paths : list string := map fst (AppRoutes initial).

End Router.

(** ** [pages/AuditLogs.tsx] *)
Module AuditLogsPage.
Import Js.

(** The two children [formatAction] (lines 33-42) places around its
    grey dot: [const [entity, verb] = action.split('.')], where a missing
    element is [undefined]. *)
Record Formatted : Type := {
  entity : option string;
  verb : option string
}.

Definition formatAction (action : string) : Formatted :=
  match split "." action with
  | [] => {| entity := None; verb := None |}
  | [e] => {| entity := Some e; verb := None |}
  | e :: v :: _ => {| entity := Some e; verb := Some v |}
  end.

(** A string child renders as its text, [undefined] as nothing. *)
Definition child (c : option string) : string :=
  match c with Some s => s | None => "" end.

(** The text of the cell: entity, dot, verb. *)
Definition textContent (f : Formatted) : string :=
  (child (entity f) ++ "." ++ child (verb f))%string.

(** The number of occurrences of a character. *)
Fixpoint count (c : ascii) (s : string) : nat :=
  match s with
  | EmptyString => 0
  | String x rest => (if Ascii.eqb x c then 1 else 0) + count c rest
  end.

End AuditLogsPage.

(** ** The requests of the streaming operations *)
Module Calls.

(** The four operations the pages run through the hook. *)
Inductive StreamingCall : Type :=
| CreateAgent
| DeleteAgent (id : string)
| StartAgent (id : string)
| StopAgent (id : string).

(** The method and URL [fetch] is called with: [executePost] passes
    ['POST'] and [executeDelete] passes ['DELETE'] to [executeStream],
    with the URL of [agents.streaming]. *)
Definition endpoint (c : StreamingCall) : Api.Method * string :=
  match c with
  | CreateAgent => (Api.POST, Api.createUrl)
  | DeleteAgent id => (Api.DELETE, Api.deleteUrl id)
  | StartAgent id => (Api.POST, Api.startUrl id)
  | StopAgent id => (Api.POST, Api.stopUrl id)
  end.

Section WithRuntime.
Context {rt : Runtime}.

(** The body the pages pass: the form's data on create, none
    otherwise. *)
Definition body_of (c : StreamingCall) (data : jsval) : jsval :=
  match c with
  | CreateAgent => data
  | DeleteAgent _ | StartAgent _ | StopAgent _ => JUndefined
  end.

(** The request [fetch] is called with. *)
Definition request (net : Hook.Network) (c : StreamingCall) (data : jsval)
  : Hook.Request :=
  Hook.request_of net (snd (endpoint c)) (fst (endpoint c)) (body_of c data).

(** The operation run through the callbacks of the hook, as the pages
    do: [executePost(createUrl(), data)], [executePost(startUrl(id))],
    [executePost(stopUrl(id))], [executeDelete(deleteUrl(id))]; the store
    when the call has returned. *)
Definition perform (op : Hook.StreamingOperationResult) (net : Hook.Network)
  (c : StreamingCall) (data : jsval) (st : Hook.Store) : Hook.Store :=
  match c with
  | CreateAgent => fst (Hook.executePost op net Api.createUrl data st)
  | DeleteAgent id => fst (Hook.executeDelete op net (Api.deleteUrl id) st)
  | StartAgent id =>
      fst (Hook.executePost op net (Api.startUrl id) JUndefined st)
  | StopAgent id =>
      fst (Hook.executePost op net (Api.stopUrl id) JUndefined st)
  end.

End WithRuntime.

End Calls.

(* ================================================================== *)
(** * Part II: lemmas and theorems                                     *)
(* ================================================================== *)

(** ** Strings and [split] *)
Section SplitLemmas.
Variable sep : ascii.

Lemma split_not_nil (s : string) : split sep s <> [].
Proof.
  destruct s as [|c s]; simpl; [discriminate|].
  destruct (Ascii.eqb c sep); [discriminate|].
  destruct (split sep s); discriminate.
Qed.

Lemma removelast_cons {A} (x : A) (l : list A) :
  l <> [] -> removelast (x :: l) = x :: removelast l.
Proof. destruct l; [congruence | reflexivity]. Qed.

Lemma last_cons {A} (x d : A) (l : list A) :
  l <> [] -> last (x :: l) d = last l d.
Proof. destruct l; [congruence | reflexivity]. Qed.

(** Splitting a concatenation: the complete segments of the first part,
    then the split of its open segment followed by the second part. *)
Lemma split_app (a b : string) :
  split sep (a ++ b)%string =
  removelast (split sep a) ++ split sep (last (split sep a) "" ++ b)%string.
Proof.
  induction a as [|c a IH]; [reflexivity|].
  cbn [String.append split].
  destruct (Ascii.eqb c sep) eqn:Hc.
  - pose proof (split_not_nil a) as Hne.
    rewrite removelast_cons, last_cons by assumption.
    rewrite IH. reflexivity.
  - rewrite IH.
    destruct (split sep a) as [|x [|y rest]] eqn:Hs.
    + exfalso. apply (split_not_nil a); assumption.
    + cbn [removelast last app String.append split]. rewrite Hc. reflexivity.
    + pose proof (removelast_cons x (y :: rest)) as Hr.
      rewrite Hr by discriminate.
      rewrite (removelast_cons (String c x) (y :: rest)) by discriminate.
      rewrite (last_cons (String c x) "" (y :: rest)) by discriminate.
      rewrite (last_cons x "" (y :: rest)) by discriminate.
      reflexivity.
Qed.

End SplitLemmas.

(** ** Lines of a text *)
Section LineLemmas.
Import Stream.

Lemma append_empty_r (s : string) : (s ++ "")%string = s.
Proof. induction s as [|c s IH]; simpl; [reflexivity | now rewrite IH]. Qed.

Lemma append_assoc (a b c : string) :
  ((a ++ b) ++ c)%string = (a ++ (b ++ c))%string.
Proof. induction a as [|x a IH]; simpl; [reflexivity | now rewrite IH]. Qed.

Lemma no_LF_split (s : string) : no_LF s = true -> split LF s = [s].
Proof.
  induction s as [|c s IH]; simpl; [reflexivity|].
  intros H. apply andb_true_iff in H. destruct H as [Hc Hs].
  apply negb_true_iff in Hc. rewrite Hc, (IH Hs). reflexivity.
Qed.

Lemma no_LF_app (a b : string) :
  no_LF (a ++ b)%string = no_LF a && no_LF b.
Proof.
  induction a as [|c a IH]; simpl; [reflexivity|].
  rewrite IH. now rewrite andb_assoc.
Qed.

(** The open segment of a split holds no separator. *)
Lemma no_LF_last_split (s : string) : no_LF (last (split LF s) "") = true.
Proof.
  induction s as [|c s IH]; [reflexivity|].
  cbn [split]. destruct (Ascii.eqb c LF) eqn:Hc.
  - rewrite last_cons by apply split_not_nil. exact IH.
  - destruct (split LF s) as [|x [|y rest]] eqn:Hs.
    + exfalso. apply (split_not_nil LF s); assumption.
    + simpl in *. now rewrite Hc, IH.
    + rewrite last_cons by discriminate.
      rewrite last_cons in IH by discriminate. exact IH.
Qed.

Lemma complete_lines_no_LF (s : string) :
  no_LF s = true -> complete_lines s = [].
Proof. intros H. unfold complete_lines. now rewrite no_LF_split. Qed.

Lemma complete_lines_app (a b : string) :
  complete_lines (a ++ b)%string =
  complete_lines a ++ complete_lines (last (split LF a) "" ++ b)%string.
Proof.
  unfold complete_lines. rewrite split_app.
  apply removelast_app, split_not_nil.
Qed.

Lemma last_app_nonempty {A} (l l' : list A) (d : A) :
  l' <> [] -> last (l ++ l') d = last l' d.
Proof.
  intros H. induction l as [|x l IH]; [reflexivity|].
  rewrite <- app_comm_cons, last_cons; [exact IH|].
  destruct l; [exact H | discriminate].
Qed.

Lemma last_split_app (a b : string) :
  last (split LF (a ++ b)%string) "" =
  last (split LF (last (split LF a) "" ++ b)%string) "".
Proof.
  rewrite split_app.
  apply last_app_nonempty, split_not_nil.
Qed.

(** Text after the last line feed adds no complete line. *)
Lemma complete_lines_open_tail (a tail : string) :
  no_LF tail = true -> complete_lines (a ++ tail)%string = complete_lines a.
Proof.
  intros H. rewrite complete_lines_app.
  rewrite (complete_lines_no_LF (_ ++ tail)%string).
  - apply app_nil_r.
  - rewrite no_LF_app, no_LF_last_split, H. reflexivity.
Qed.

End LineLemmas.

(** ** The read loop *)
Section LoopLemmas.
Context {rt : Runtime}.
Import Hook Stream.

Lemma process_line_deliver (acc : Store * jsval) (line : string) :
  process_line acc line =
  fold_left deliver (events_of_lines [line]) acc.
Proof.
  destruct acc as [st fr].
  unfold process_line, events_of_lines, parse_line. cbn [flat_map].
  destruct (startsWith "data: " line); [|reflexivity].
  destruct (JSON_parse (slice 6 line)) as [event|]; [|reflexivity].
  destruct (nullish event) eqn:Hn; cbn [app fold_left]; unfold deliver;
    cbn [fst snd].
  - unfold on_event, Get. rewrite Hn. reflexivity.
  - reflexivity.
Qed.

Lemma events_of_lines_app (l1 l2 : list string) :
  events_of_lines (l1 ++ l2) = events_of_lines l1 ++ events_of_lines l2.
Proof. unfold events_of_lines. apply flat_map_app. Qed.

(** Handing lines to the loop body is delivering the events they carry. *)
Lemma fold_process_line (lines : list string) (acc : Store * jsval) :
  fold_left process_line lines acc =
  fold_left deliver (events_of_lines lines) acc.
Proof.
  revert acc. induction lines as [|line lines IH]; intros acc; [reflexivity|].
  cbn [fold_left]. rewrite IH, process_line_deliver.
  change (line :: lines) with ([line] ++ lines).
  rewrite events_of_lines_app, fold_left_app. reflexivity.
Qed.

(** The loop hands the body of its [for] exactly the complete lines of
    the text read so far, in order, whatever the chunks were. *)
Lemma read_loop_lines (reads : list (list byte)) (ending : ReadEnd) :
  forall (rd : Reading) (st : Store),
    no_LF (buffer rd) = true ->
    read_loop reads ending rd st =
    let '(st', fr) :=
      fold_left process_line
        (complete_lines (buffer rd ++ decoded (decoder rd) reads)%string)
        (st, finalResult rd) in
    (st', completion_of ending fr).
Proof.
  induction reads as [|value rest IH]; intros rd st Hbuf.
  - cbn [read_loop decoded]. rewrite append_empty_r.
    rewrite complete_lines_no_LF by assumption. destruct ending; reflexivity.
  - cbn [read_loop decoded]. unfold process_chunk.
    destruct (decode (decoder rd) value) as [d' s] eqn:Hd.
    rewrite <- append_assoc, complete_lines_app, fold_left_app.
    fold (complete_lines (buffer rd ++ s)%string).
    destruct (fold_left process_line (complete_lines (buffer rd ++ s)%string)
                (st, finalResult rd)) as [st1 fr1].
    rewrite IH by apply no_LF_last_split.
    reflexivity.
Qed.

(** The loop delivers the received events, in order. *)
Lemma read_loop_events (reads : list (list byte)) (ending : ReadEnd)
  (st : Store) :
  read_loop reads ending start_reading st =
  let '(st', fr) := fold_left deliver (received_events reads) (st, JNull) in
  (st', completion_of ending fr).
Proof.
  rewrite read_loop_lines by reflexivity.
  rewrite fold_process_line. reflexivity.
Qed.

End LoopLemmas.

(** ** Delivering events *)
Section DeliverLemmas.
Context {rt : Runtime}.
Import Hook Stream.

Lemma member_nullish (e : jsval) (key : string) :
  nullish e = true -> member e key = JUndefined.
Proof. destruct e; simpl; congruence. Qed.

Lemma terminal_nullish (e : jsval) : nullish e = true -> terminal e = false.
Proof.
  intros H. unfold terminal, is_error, is_complete.
  rewrite member_nullish by assumption. reflexivity.
Qed.

Lemma is_string_exclusive (v : jsval) (a b : string) :
  is_string v a = true -> is_string v b = true -> a = b.
Proof.
  destruct v; simpl; try discriminate.
  intros Ha Hb. apply String.eqb_eq in Ha, Hb. congruence.
Qed.

Lemma complete_not_error (e : jsval) :
  is_complete e = true -> is_error e = false.
Proof.
  unfold is_complete, is_error. intros Hc.
  destruct (is_string (member e "type") "error") eqn:He; [|reflexivity].
  pose proof (is_string_exclusive _ _ _ Hc He). discriminate.
Qed.

Lemma error_not_nullish (e : jsval) : is_error e = true -> nullish e = false.
Proof.
  intros He. destruct (nullish e) eqn:Hn; [|reflexivity].
  unfold is_error in He. rewrite member_nullish in He by assumption.
  discriminate.
Qed.

Lemma complete_not_nullish (e : jsval) :
  is_complete e = true -> nullish e = false.
Proof.
  intros He. destruct (nullish e) eqn:Hn; [|reflexivity].
  unfold is_complete in He. rewrite member_nullish in He by assumption.
  discriminate.
Qed.

(** An [error] event sets the error state and nothing else. *)
Lemma deliver_error (e : jsval) (st : Store) (fr : jsval) :
  is_error e = true ->
  deliver (st, fr) e = (setError (member e "message") st, fr).
Proof.
  intros He. unfold deliver, on_event, Get. cbn [fst snd].
  rewrite (error_not_nullish e He).
  unfold is_error in He. rewrite He. reflexivity.
Qed.

(** A [complete] event is appended; its truthy [data.agent] becomes the
    result. *)
Lemma deliver_complete (e : jsval) (st : Store) (fr : jsval) :
  is_complete e = true ->
  deliver (st, fr) e =
  if truthy (agent_of e)
  then (setEvents (fun prev => prev ++ [e]) (setResult (agent_of e) st),
        agent_of e)
  else (setEvents (fun prev => prev ++ [e]) st, fr).
Proof.
  intros Hc. unfold deliver, on_event, Get. cbn [fst snd].
  rewrite (complete_not_nullish e Hc).
  pose proof (complete_not_error e Hc) as He.
  unfold is_error in He. unfold is_complete in Hc. rewrite He, Hc.
  fold (agent_of e). destruct (truthy (agent_of e)); reflexivity.
Qed.

(** Any other event with properties is appended. *)
Lemma deliver_other (e : jsval) (st : Store) (fr : jsval) :
  nullish e = false -> terminal e = false ->
  deliver (st, fr) e = (setEvents (fun prev => prev ++ [e]) st, fr).
Proof.
  intros Hn Ht. unfold deliver, on_event, Get. cbn [fst snd]. rewrite Hn.
  unfold terminal, is_error, is_complete in Ht.
  apply orb_false_iff in Ht. destruct Ht as [He Hc]. rewrite He, Hc.
  reflexivity.
Qed.

Lemma deliver_nullish (e : jsval) (acc : Store * jsval) :
  nullish e = true -> deliver acc e = acc.
Proof.
  intros Hn. unfold deliver, on_event, Get. rewrite Hn. reflexivity.
Qed.

(** The cases of [deliver], for case analysis on an event. *)
Lemma deliver_cases (e : jsval) (st : Store) (fr : jsval) :
  (nullish e = true /\ terminal e = false /\ deliver (st, fr) e = (st, fr))
  \/ (nullish e = false /\ is_error e = true /\ is_complete e = false
      /\ deliver (st, fr) e = (setError (member e "message") st, fr))
  \/ (nullish e = false /\ is_error e = false /\ is_complete e = true
      /\ deliver (st, fr) e =
         if truthy (agent_of e)
         then (setEvents (fun prev => prev ++ [e]) (setResult (agent_of e) st),
               agent_of e)
         else (setEvents (fun prev => prev ++ [e]) st, fr))
  \/ (nullish e = false /\ terminal e = false
      /\ deliver (st, fr) e = (setEvents (fun prev => prev ++ [e]) st, fr)).
Proof.
  destruct (nullish e) eqn:Hn.
  - left. auto using terminal_nullish, deliver_nullish.
  - destruct (is_error e) eqn:He.
    + right; left. repeat split; auto using deliver_error.
      destruct (is_complete e) eqn:Hc; [|reflexivity].
      apply complete_not_error in Hc. congruence.
    + destruct (is_complete e) eqn:Hc.
      * right; right; left. repeat split; auto using deliver_complete.
      * right; right; right. repeat split.
        -- unfold terminal. now rewrite He, Hc.
        -- apply deliver_other; [assumption|].
           unfold terminal. now rewrite He, Hc.
Qed.

(** Events that are not terminal leave the error state, the result and
    [finalResult] as they were. *)
Lemma fold_deliver_quiet (evs : list jsval) :
  forall acc : Store * jsval,
    (forall e, In e evs -> terminal e = false) ->
    error (fst (fold_left deliver evs acc)) = error (fst acc)
    /\ result (fst (fold_left deliver evs acc)) = result (fst acc)
    /\ snd (fold_left deliver evs acc) = snd acc.
Proof.
  induction evs as [|e evs IH]; intros [st fr] Hq; [auto|].
  cbn [fold_left].
  assert (Hrest : forall x, In x evs -> terminal x = false)
    by (intros x Hx; apply Hq; now right).
  assert (He : terminal e = false) by (apply Hq; now left).
  destruct (IH (deliver (st, fr) e) Hrest) as (H1 & H2 & H3).
  rewrite H1, H2, H3. clear IH H1 H2 H3.
  destruct (nullish e) eqn:Hn.
  - rewrite deliver_nullish by assumption. auto.
  - rewrite deliver_other by assumption. auto.
Qed.

(** The store cells that delivering never writes. *)
Lemma fold_deliver_frame (evs : list jsval) :
  forall acc : Store * jsval,
    isLoading (fst (fold_left deliver evs acc)) = isLoading (fst acc)
    /\ abortControllerRef (fst (fold_left deliver evs acc))
       = abortControllerRef (fst acc)
    /\ aborted (fst (fold_left deliver evs acc)) = aborted (fst acc)
    /\ next_controller (fst (fold_left deliver evs acc))
       = next_controller (fst acc).
Proof.
  induction evs as [|e evs IH]; intros [st fr]; [auto|].
  cbn [fold_left].
  destruct (IH (deliver (st, fr) e)) as (H1 & H2 & H3 & H4).
  rewrite H1, H2, H3, H4. clear IH H1 H2 H3 H4.
  destruct (deliver_cases e st fr)
    as [(_ & _ & H) | [(_ & _ & _ & H) | [(_ & _ & _ & H) | (_ & _ & H)]]];
    rewrite H; try destruct (truthy (agent_of e)); auto.
Qed.

(** The events state grows by the delivered events that are not [error]
    events, in order. *)
Lemma fold_deliver_events (evs : list jsval) :
  forall acc : Store * jsval,
    Forall (fun e => nullish e = false) evs ->
    events (fst (fold_left deliver evs acc)) =
    events (fst acc) ++ filter (fun e => negb (is_error e)) evs.
Proof.
  induction evs as [|e evs IH]; intros [st fr] Hall.
  - simpl. now rewrite app_nil_r.
  - inversion Hall as [|? ? Hn Hrest]; subst.
    cbn [fold_left filter]. rewrite IH by assumption. clear IH.
    destruct (deliver_cases e st fr)
      as [(Hx & _) | [(_ & He & _ & H) | [(_ & He & _ & H) | (_ & Ht & H)]]].
    + congruence.
    + rewrite H, He. reflexivity.
    + rewrite H, He. cbn [negb].
      destruct (truthy (agent_of e)); cbn [fst events setEvents setResult];
        now rewrite <- app_assoc.
    + rewrite H. apply orb_false_iff in Ht. destruct Ht as [He _].
      rewrite He. cbn [negb fst events setEvents]. now rewrite <- app_assoc.
Qed.

Lemma received_events_not_nullish (reads : list (list byte)) :
  Forall (fun e => nullish e = false) (received_events reads).
Proof.
  unfold received_events, events_of_lines.
  induction (complete_lines (received_text reads)) as [|line lines IH];
    [constructor|].
  cbn [flat_map]. apply Forall_app. split; [|exact IH].
  unfold parse_line.
  destruct (startsWith "data: " line); [|constructor].
  destruct (JSON_parse (slice 6 line)) as [event|]; [|constructor].
  destruct (nullish event) eqn:Hn; constructor; [assumption | constructor].
Qed.

End DeliverLemmas.

(** ** Lists with at most one marked element *)
Section ListLemmas.
Context {A : Type}.
Variable p : A -> bool.

Lemma filter_nil_all (l : list A) :
  filter p l = [] -> forall x, In x l -> p x = false.
Proof.
  induction l as [|y l IH]; intros Hf x Hx; [contradiction|].
  simpl in Hf. destruct (p y) eqn:Hy; [discriminate|].
  destruct Hx as [<-|Hx]; [assumption | now apply IH].
Qed.

Lemma at_most_one_split (l : list A) (e : A) :
  length (filter p l) <= 1 -> In e l -> p e = true ->
  exists l1 l2, l = l1 ++ e :: l2
    /\ (forall x, In x l1 -> p x = false)
    /\ (forall x, In x l2 -> p x = false).
Proof.
  intros Hlen Hin He.
  destruct (in_split e l Hin) as (l1 & l2 & ->).
  exists l1, l2. split; [reflexivity|].
  rewrite filter_app in Hlen. cbn [filter] in Hlen. rewrite He in Hlen.
  rewrite length_app in Hlen. cbn [length] in Hlen.
  split; apply filter_nil_all; apply length_zero_iff_nil; lia.
Qed.

End ListLemmas.

(** ** [executeStream] on a streamed response *)
Section ExecuteLemmas.
Context {rt : Runtime}.
Import Hook Stream.

Lemma begin_clears (st : Store) :
  events (snd (executeStream_begin st)) = []
  /\ error (snd (executeStream_begin st)) = JNull
  /\ result (snd (executeStream_begin st)) = JNull
  /\ isLoading (snd (executeStream_begin st)) = true.
Proof.
  unfold executeStream_begin.
  destruct (abortControllerRef st); cbn; auto.
Qed.

Lemma executeStream_unfold (net : Network) (url : string)
  (method : Api.Method) (body : jsval) (st : Store) :
  executeStream net url method body st =
  settle (fetch net (request_of net url method body))
    (snd (executeStream_begin st)).
Proof.
  unfold executeStream. destruct (executeStream_begin st). reflexivity.
Qed.

(** A response that is ok and has a body: the call delivers the received
    events to the cleared store and leaves as the reads end. *)
Lemma settle_streamed (r : Response) (b : Body) (st : Store) :
  ok r = true -> Hook.body r = Some b ->
  settle (FetchResolves r) st =
  leave
    (completion_of (ending b)
       (snd (fold_left deliver (received_events (chunks b)) (st, JNull))))
    (fst (fold_left deliver (received_events (chunks b)) (st, JNull))).
Proof.
  intros Hok Hb. unfold settle, try_block. rewrite Hok, Hb. cbn [negb].
  rewrite read_loop_events.
  destruct (fold_left deliver (received_events (chunks b)) (st, JNull)).
  reflexivity.
Qed.

Lemma leave_Return (v : jsval) (st : Store) :
  leave (Return v) st = (finally_block st, v).
Proof. reflexivity. Qed.

Lemma finally_block_keeps (st : Store) :
  events (finally_block st) = events st
  /\ error (finally_block st) = error st
  /\ result (finally_block st) = result st
  /\ isLoading (finally_block st) = false
  /\ abortControllerRef (finally_block st) = None.
Proof. repeat split. Qed.

Lemma catch_block_keeps (err : thrown) (st : Store) :
  events (fst (catch_block err st)) = events st
  /\ result (fst (catch_block err st)) = result st
  /\ isLoading (fst (catch_block err st)) = isLoading st
  /\ snd (catch_block err st) = JNull.
Proof.
  destruct err as [name message|]; cbn [catch_block].
  - destruct (String.eqb name "AbortError"); repeat split.
  - repeat split.
Qed.

Lemma leave_isLoading (c : Completion) (st : Store) :
  isLoading (fst (leave c st)) = false.
Proof.
  unfold leave. destruct c as [v|err]; [reflexivity|].
  destruct (catch_block err st). reflexivity.
Qed.

Lemma leave_events (c : Completion) (st : Store) :
  events (fst (leave c st)) = events st.
Proof.
  unfold leave. destruct c as [v|err]; [reflexivity|].
  pose proof (catch_block_keeps err st) as (H & _).
  destruct (catch_block err st). exact H.
Qed.

End ExecuteLemmas.


(** ** C2: which received events reach the [events] state *)
Section EventsState.
Context {rt : Runtime}.
Import Hook Stream.


End EventsState.

Section EventsStateAtWork.
Import Sample Hook Stream.


(** C2, at the stream [Sample.failed]: the [error] event is received on
    the response channel and is not in the [events] state, which holds the
    [log] event alone. *)
Theorem error_event_is_not_appended :
  let out :=
    executePost (useStreamingOperation initial)
      (always (streams failed)) (Api.stopUrl "a1") JUndefined initial in
  received_events failed =
    [JObj [("type", JStr "log"); ("message", JStr "Deleting bucket")];
     the_error_event]
  /\ events (fst out) =
    [JObj [("type", JStr "log"); ("message", JStr "Deleting bucket")]]
  /\ ~ In the_error_event (events (fst out)).
Proof.
  vm_compute. repeat split.
  intros [H|[]]. discriminate.
Qed.

End EventsStateAtWork.

(** ** C6: the call always clears [isLoading]; HTTP errors *)
Section HttpErrors.
Context {rt : Runtime}.
Import Hook Stream.

Lemma executeStream_isLoading (net : Network) (url : string)
  (method : Api.Method) (body : jsval) (st : Store) :
  isLoading (fst (executeStream net url method body st)) = false.
Proof.
  rewrite executeStream_unfold. unfold settle.
  destruct (try_block _ _) as [st' c]. apply leave_isLoading.
Qed.

Lemma settle_not_ok (r : Response) (errorText : string) (st : Store) :
  ok r = false -> text r = inl errorText ->
  settle (FetchResolves r) st =
  leave (Throw (new_Error (errorMessage_of (status r) errorText))) st.
Proof.
  intros Hok Ht. unfold settle, try_block. rewrite Hok, Ht. reflexivity.
Qed.

(** The error thrown for a response that is not ok is caught and its
    message becomes the error state. *)
Lemma leave_new_Error (message : jsval) (st : Store) :
  leave (Throw (new_Error message)) st =
  (finally_block
     (setError
        (JStr match ToString message with
              | Some m => m
              | None => TypeError_message
              end) st),
   JNull).
Proof. unfold new_Error. destruct (ToString message); reflexivity. Qed.

Lemma errorMessage_of_default (status : N) (errorText : string) :
  match JSON_parse errorText with
  | Some errorJson => truthy (optional_Get errorJson "detail") = false
  | None => True
  end ->
  errorMessage_of status errorText =
  JStr ("Request failed: " ++ decimal status).
Proof.
  unfold errorMessage_of, optional_Get, Get, or_else.
  destruct (JSON_parse errorText) as [errorJson|]; [|reflexivity].
  destruct (nullish errorJson); [reflexivity|].
  intros ->. reflexivity.
Qed.

Lemma errorMessage_of_detail (status : N) (errorText : string)
  (errorJson : jsval) :
  JSON_parse errorText = Some errorJson ->
  truthy (optional_Get errorJson "detail") = true ->
  errorMessage_of status errorText = optional_Get errorJson "detail".
Proof.
  unfold errorMessage_of, optional_Get, Get, or_else. intros -> H.
  destruct (nullish errorJson); [discriminate|].
  rewrite H. reflexivity.
Qed.


End HttpErrors.

Section HttpErrorsAtWork.
Import Sample Hook Stream.



End HttpErrorsAtWork.

(** ** C9: what [executeDelete] returns *)
Section DeleteResult.
Context {rt : Runtime}.
Import Hook Stream.

(** The value [executeDelete] returns is [error === null && !isLoading]
    of the render that created the callback. *)
Lemma executeDelete_result_of_render (rendered st : Store) (net : Network)
  (url : string) :
  snd (executeDelete (useStreamingOperation rendered) net url st) =
  is_null (error rendered) && negb (isLoading rendered).
Proof.
  unfold useStreamingOperation, executeDelete.
  destruct (executeStream net url Api.DELETE JUndefined st). reflexivity.
Qed.

Lemma executeDelete_store (rendered st : Store) (net : Network)
  (url : string) :
  fst (executeDelete (useStreamingOperation rendered) net url st) =
  fst (executeStream net url Api.DELETE JUndefined st).
Proof.
  unfold useStreamingOperation, executeDelete.
  destruct (executeStream net url Api.DELETE JUndefined st). reflexivity.
Qed.

End DeleteResult.

Section DeleteResultAtWork.
Import Sample Hook Stream.

(** C9, at two inputs.  On a page just loaded, a delete whose stream
    carries an [error] event: [executeDelete] returns [true], the error
    state holds the failure, and [handleDeleteStreaming] schedules the
    navigation.  On a page whose last render saw an error, a delete whose
    stream completes without one: [executeDelete] returns [false]. *)
Theorem executeDelete_reports_stale_state :
  let failing :=
    executeDelete (useStreamingOperation initial)
      (always (streams failed)) (Api.deleteUrl "a1") initial in
  let after_failure := fst failing in
  let succeeding :=
    executeDelete (useStreamingOperation after_failure)
      (always (streams quiet)) (Api.deleteUrl "a1") after_failure in
  (snd failing = true
   /\ error (fst failing) = JStr "bucket teardown failed"
   /\ snd (Pages.run_handleDeleteStreaming (always (streams failed))
             (agent Types.running) true initial initial) = true)
  /\ (snd succeeding = false
      /\ error (fst succeeding) = JNull).
Proof. vm_compute. repeat split. Qed.

End DeleteResultAtWork.

(** ** C10: overlapping calls *)
Section Overlap.
Context {rt : Runtime}.
Import Hook Async.



(** C10, at three overlapping calls.  The first call is invoked; the
    second is invoked while the first is in flight, and aborts it; the
    first call's rejection runs its [finally], which clears the reference
    the second call had set; the third call is invoked while the second
    is in flight.  The second call is then still in flight and was never
    aborted, next to the third. *)
Theorem third_call_does_not_abort_second :
  exists w,
    steps start [Invoke; Invoke; Settle 0 (Rejected AbortError); Invoke]
    = Some w
    /\ is_in_flight 1 w = true
    /\ is_aborted 1 w = false
    /\ is_in_flight 2 w = true
    /\ returned w = [(0, JNull)]
    /\ error (store w) = JNull.
Proof. eexists. split; [reflexivity|]. repeat split. Qed.

(** The steps of one call running alone, on what the network did, end
    where [executeStream] ends. *)
Lemma reading_alone (reads : list (list byte)) (ending : ReadEnd) :
  forall (rd : Reading) (st : Store),
    steps {| store := st;
             in_flight := [{| controller := 0; awaiting := AwaitRead rd |}];
             returned := [] |}
      (map (Settle 0)
         (map ReadValue reads
          ++ [match ending with
              | Done => ReadDone
              | ReadRejects t => Rejected t
              end]))
    = Some {| store := fst (leave (snd (read_loop reads ending rd st))
                               (fst (read_loop reads ending rd st)));
              in_flight := [];
              returned :=
                [(0, snd (leave (snd (read_loop reads ending rd st))
                            (fst (read_loop reads ending rd st))))] |}.
Proof.
  induction reads as [|value rest IH]; intros rd st.
  - destruct ending; reflexivity.
  - cbn [map app steps step store in_flight find_call controller awaiting
         Nat.eqb resume read_loop].
    destruct (process_chunk value rd st) as [rd' st'].
    cbn [update_call controller Nat.eqb returned].
    apply IH.
Qed.

Lemma alone_agrees (outcome : FetchOutcome) (st : Store) :
  steps {| store := st;
           in_flight := [{| controller := 0; awaiting := AwaitFetch |}];
           returned := [] |}
    (map (Settle 0) (script outcome))
  = Some {| store := fst (settle outcome st);
            in_flight := [];
            returned := [(0, snd (settle outcome st))] |}.
Proof.
  destruct outcome as [t|r].
  - reflexivity.
  - unfold script, settle, try_block, ok.
    destruct (N.leb 200 (status r) && N.leb (status r) 299) eqn:Hok;
      cbn [negb].
    + destruct (body r) as [b|].
      * cbn [map steps step store in_flight find_call controller awaiting
             Nat.eqb resume]. rewrite Hok.
        cbn [negb update_call controller Nat.eqb returned].
        rewrite (reading_alone (chunks b) (ending b) start_reading st).
        destruct (read_loop (chunks b) (ending b) start_reading st).
        reflexivity.
      * cbn [map steps step store in_flight find_call controller awaiting
             Nat.eqb resume]. rewrite Hok. reflexivity.
    + cbn [map steps step store in_flight find_call controller awaiting
           Nat.eqb resume]. rewrite Hok.
      destruct (text r) as [s|t]; reflexivity.
Qed.

End Overlap.

(** ** C8: the read loop does not see the chunk boundaries *)
Section ChunkBoundaries.
Context {rt : Runtime} {streaming : Stream.StreamingDecoder rt}.
Import Hook Stream.

(** Under a streaming decoder the text received is the decoding of the
    concatenated chunks. *)
Lemma decoded_concat (reads : list (list byte)) :
  forall d, decoded d reads = snd (decode d (concat reads)).
Proof.
  induction reads as [|value rest IH]; intros d.
  - cbn [decoded concat]. now rewrite decode_nil.
  - cbn [decoded concat]. rewrite decode_app.
    destruct (decode d value) as [d1 s1]. rewrite IH.
    destruct (decode d1 (concat rest)) as [d2 s2]. reflexivity.
Qed.

(** C8.  The read loop of [executeStream] is chunk-boundary invariant: two
    sequences of chunks with the same concatenation carry the same sequence
    of parsed events and leave the same store and the same completion; and
    when the received text is [text ++ tail] with no line feed in [tail],
    the events parsed are those of the complete lines of [text] and the
    loop hands its body those lines and nothing of [tail], however the
    text was cut into chunks: a final line that no line feed ends is never
    parsed. *)
Theorem chunk_boundary_invariance :
  (forall (reads1 reads2 : list (list byte)) (ending : ReadEnd) (st : Store),
     concat reads1 = concat reads2 ->
     received_events reads1 = received_events reads2
     /\ read_loop reads1 ending start_reading st =
        read_loop reads2 ending start_reading st)
  /\ (forall (reads : list (list byte)) (ending : ReadEnd) (st : Store)
             (text tail : string),
        snd (decode new_TextDecoder (concat reads)) = (text ++ tail)%string ->
        no_LF tail = true ->
        received_events reads = events_of_lines (complete_lines text)
        /\ read_loop reads ending start_reading st =
           (fst (fold_left process_line (complete_lines text) (st, JNull)),
            completion_of ending
              (snd (fold_left process_line (complete_lines text) (st, JNull))))).
Proof.
  split.
  - intros reads1 reads2 ending st Hsame. split.
    + unfold received_events, received_text.
      rewrite !decoded_concat, Hsame. reflexivity.
    + rewrite !read_loop_lines by reflexivity.
      cbn [buffer decoder start_reading String.append].
      rewrite !decoded_concat, Hsame. reflexivity.
  - intros reads ending st text tail Htext Htail. split.
    + unfold received_events, received_text.
      rewrite decoded_concat, Htext, complete_lines_open_tail by assumption.
      reflexivity.
    + rewrite read_loop_lines by reflexivity.
      cbn [buffer decoder start_reading String.append finalResult].
      rewrite decoded_concat, Htext, complete_lines_open_tail by assumption.
      destruct (fold_left process_line (complete_lines text) (st, JNull)).
      reflexivity.
Qed.

End ChunkBoundaries.

Section ChunkBoundariesAtWork.
Import Sample Hook Stream.

Lemma string_of_list_byte_app (a b : list byte) :
  string_of_list_byte (a ++ b) =
  (string_of_list_byte a ++ string_of_list_byte b)%string.
Proof.
  unfold string_of_list_byte. rewrite map_app.
  induction (map ascii_of_byte a) as [|x l IH]; [reflexivity|].
  cbn [app string_of_list_ascii String.append]. now rewrite IH.
Qed.

(** The sample decoder is a streaming decoder. *)
Lemma sample_decoder_streams : StreamingDecoder Sample.runtime.
Proof.
  split.
  - intros d. reflexivity.
  - intros d a b. cbn [decode Sample.runtime].
    now rewrite string_of_list_byte_app.
Qed.

(** The theorem at work: [Sample.created], cut in the middle of a line,
    against the same bytes in one chunk; and a stream whose last line, an
    [error] event, has no line feed. *)
Lemma chunk_boundary_invariance_witness :
  (read_loop created Done start_reading initial =
   read_loop [concat created] Done start_reading initial)
  /\ (read_loop
        [chunk "data: {'type':'log','message':'Deleting bucket'}|da";
         chunk "ta: {'type':'error','message':'bucket teardown failed'}"]
        Done start_reading initial
      = (setEvents
           (fun _ => [JObj [("type", JStr "log"); ("message", JStr "Deleting bucket")]])
           initial,
         Return JNull)).
Proof.
  split.
  - refine (proj2 (proj1 (chunk_boundary_invariance (streaming := sample_decoder_streams))
              created [concat created] Done initial _)).
    vm_compute. reflexivity.
  - refine (proj2 (proj2 (chunk_boundary_invariance (streaming := sample_decoder_streams))
              _ Done initial
              (lines (json "data: {'type':'log','message':'Deleting bucket'}|"))
              (json "data: {'type':'error','message':'bucket teardown failed'}")
              _ _)).
    + vm_compute. reflexivity.
    + vm_compute. reflexivity.
Defined.

End ChunkBoundariesAtWork.


(** ** C4: when start and stop are offered *)
Section PageActions.
Import Types Pages.

Lemma status_is_iff (agent : Agent) (s : AgentStatus) :
  status_is agent (literal s) = true <-> vm_status agent = s.
Proof.
  unfold status_is. destruct (vm_status agent), s; cbn;
    split; intros H; first [reflexivity | discriminate].
Qed.

Lemma handlers_app (l1 l2 : list Node) :
  handlers (l1 ++ l2) = handlers l1 ++ handlers l2.
Proof. apply flat_map_app. Qed.

Lemma handlers_AgentCard (agent : Agent) (onStart onStop onDelete : Handler) :
  handlers (AgentCard agent onStart onStop onDelete) =
  (if status_is agent "stopped" then [onStart] else [])
  ++ (if status_is agent "running" then [onStop] else [])
  ++ [onDelete].
Proof.
  unfold AgentCard. rewrite !handlers_app.
  assert (Htask : handlers
            match current_task agent with
            | Some task => when (negb (String.eqb task "")) [Text task]
            | None => []
            end = []).
  { destruct (current_task agent) as [task|]; [|reflexivity].
    destruct (String.eqb task ""); reflexivity. }
  rewrite Htask.
  destruct (status_is agent "stopped"), (status_is agent "running");
    reflexivity.
Qed.

Lemma handlers_AgentDetail_header (agent : Agent) (loading archiving : bool) :
  handlers (AgentDetail_header agent loading archiving) =
  [navigate_dashboard; handleRefreshStatus]
  ++ (if status_is agent "stopped" then [handleStartStreaming] else [])
  ++ (if status_is agent "running" then [handleStopStreaming] else [])
  ++ [archiveMutation_mutate; handleDeleteStreaming].
Proof.
  unfold AgentDetail_header. rewrite !handlers_app.
  destruct (status_is agent "stopped"), (status_is agent "running");
    reflexivity.
Qed.

(** C4.  On the agent-detail page the start handler is offered exactly
    when the agent's [vm_status] is [stopped] and the stop handler exactly
    when it is [running]; on the dashboard the start handler of an agent is
    offered exactly when a listed agent with that id is [stopped], the stop
    handler exactly when one is [running].  In any other status neither is
    offered. *)
Theorem start_and_stop_follow_status :
  (forall (agent : Agent) (loading archiving : bool),
     (In handleStartStreaming
         (handlers (AgentDetail_header agent loading archiving))
      <-> vm_status agent = stopped)
     /\ (In handleStopStreaming
           (handlers (AgentDetail_header agent loading archiving))
         <-> vm_status agent = running))
  /\ (forall (agents : list Agent) (i : string),
        (In (handleStartAgentStreaming i) (handlers (Dashboard_cards agents))
         <-> exists a, In a agents /\ id a = i /\ vm_status a = stopped)
        /\ (In (handleStopAgentStreaming i) (handlers (Dashboard_cards agents))
            <-> exists a, In a agents /\ id a = i /\ vm_status a = running)).
Proof.
  split.
  - intros agent loading archiving. rewrite handlers_AgentDetail_header.
    rewrite <- (status_is_iff agent stopped), <- (status_is_iff agent running).
    cbn [literal].
    destruct (status_is agent "stopped"), (status_is agent "running"); cbn;
      split; split; intros H;
      first [reflexivity | discriminate | tauto
            | (repeat destruct H as [H|H]; try discriminate H; contradiction)].
  - intros agents i.
    assert (Hcards : forall h,
      In h (handlers (Dashboard_cards agents)) <->
      exists a, In a agents /\
        In h (handlers (AgentCard a (handleStartAgentStreaming (id a))
                          (handleStopAgentStreaming (id a))
                          (handleDeleteAgentStreaming (id a))))).
    { intros h. unfold Dashboard_cards, handlers at 1.
      rewrite in_flat_map. split.
      - intros (n & Hn & Hh). apply in_flat_map in Hn.
        destruct Hn as (a & Ha & Hn). exists a. split; [assumption|].
        unfold handlers. apply in_flat_map. eauto.
      - intros (a & Ha & Hh). unfold handlers in Hh.
        apply in_flat_map in Hh. destruct Hh as (n & Hn & Hh).
        exists n. split; [|assumption]. apply in_flat_map. eauto. }
    split; rewrite Hcards; split.
    + intros (a & Ha & Hh). exists a. rewrite handlers_AgentCard in Hh.
      rewrite <- (status_is_iff a stopped). cbn [literal].
      destruct (status_is a "stopped"), (status_is a "running"); cbn in Hh;
        repeat destruct Hh as [Hh|Hh]; try discriminate Hh; try contradiction;
        injection Hh as Hh; auto.
    + intros (a & Ha & <- & Hs). exists a. split; [assumption|].
      rewrite handlers_AgentCard.
      apply (status_is_iff a stopped) in Hs. cbn [literal] in Hs. rewrite Hs.
      now left.
    + intros (a & Ha & Hh). exists a. rewrite handlers_AgentCard in Hh.
      rewrite <- (status_is_iff a running). cbn [literal].
      destruct (status_is a "stopped"), (status_is a "running"); cbn in Hh;
        repeat destruct Hh as [Hh|Hh]; try discriminate Hh; try contradiction;
        injection Hh as Hh; auto.
    + intros (a & Ha & <- & Hs). exists a. split; [assumption|].
      rewrite handlers_AgentCard.
      apply (status_is_iff a running) in Hs. cbn [literal] in Hs. rewrite Hs.
      destruct (status_is a "stopped"); cbn; auto.
Qed.

End PageActions.

(** ** C5: the status enumeration and the badge *)
Section StatusEnum.
Import Types Badge.

Lemma literal_injective (a b : AgentStatus) : literal a = literal b -> a = b.
Proof. destruct a, b; cbn; intros H; first [reflexivity | discriminate H]. Qed.

(** C5.  [AgentStatus] has exactly the eight values creating, running,
    stopping, stopped, starting, deleting, deleted and error, each with a
    literal of its own; [statusStyles] has an entry for each and for
    nothing else, so [StatusBadge] never reaches its fallback; the badge's
    label is the capitalised literal; and the dot pulses exactly for
    creating, starting, stopping and deleting. *)
Theorem status_enum_is_eight_and_badge_total :
  map literal all_AgentStatus =
    ["creating"; "running"; "stopping"; "stopped";
     "starting"; "deleting"; "deleted"; "error"]
  /\ (forall s : AgentStatus, In s all_AgentStatus)
  /\ NoDup (map literal all_AgentStatus)
  /\ (forall key : string,
        In key (map fst statusStyles) <-> exists s, literal s = key)
  /\ (forall s : AgentStatus,
        lookup (literal s) statusStyles = Some (styles (StatusBadge s)))
  /\ (forall s : AgentStatus, label (StatusBadge s) = capitalize (literal s))
  /\ (forall s : AgentStatus,
        animate_pulse (StatusBadge s) = true
        <-> In s [creating; starting; stopping; deleting]).
Proof.
  split; [reflexivity|]. split; [|split; [|split; [|split; [|split]]]].
  - intros s. destruct s; cbn; tauto.
  - cbn. repeat constructor; cbn; intuition discriminate.
  - intros key. split.
    + cbn. intros H.
      repeat (destruct H as [<-|H];
              [first [now exists running | now exists stopped
                     | now exists creating | now exists starting
                     | now exists stopping | now exists deleting
                     | now exists deleted | now exists error]|]).
      contradiction.
    + intros (s & <-). destruct s; cbn; tauto.
  - intros s. destruct s; reflexivity.
  - intros s. reflexivity.
  - intros s. destruct s; cbn; split; intros H;
      first [reflexivity | discriminate H | tauto
            | (repeat destruct H as [H|H]; try discriminate H; contradiction)].
Qed.

End StatusEnum.

(** ** The declared types and the credential value *)
Section DeclaredTypes.
Import Types Api.

(** The declarations of [Credential], [AuditLog] and [StreamEvent] hold no
    [value] field; that of [CreateCredentialRequest] holds one. *)
Lemma only_the_create_request_declares_value :
  ~ In "value" Credential_fields
  /\ ~ In "value" AuditLog_fields
  /\ ~ In "value" StreamEvent_fields
  /\ In "value" CreateCredentialRequest_fields
  /\ (forall o, In o credentials -> method o = POST -> op o = "create").
Proof.
  repeat split.
  - cbn. intuition discriminate.
  - cbn. intuition discriminate.
  - cbn. intuition discriminate.
  - cbn. tauto.
  - intros o Hin Hm. cbn in Hin.
    repeat (destruct Hin as [<-|Hin];
            [first [discriminate Hm | reflexivity]|]).
    contradiction.
Qed.

End DeclaredTypes.

(** ** The progress list *)
Section ProgressList.
Import Progress.

(** The progress list shows one row for each event of the [events] state,
    in order; a row for an [error] event would carry the alert icon. *)
Lemma event_list_rows (events : list jsval) :
  length (event_list events) = length events
  /\ (forall n e, nth_error events n = Some e ->
        nth_error (event_list events) n = Some (row_of e))
  /\ icon (row_of Sample.the_error_event) = AlertCircle.
Proof.
  unfold event_list. split; [apply length_map|]. split; [|reflexivity].
  intros n e H. now rewrite nth_error_map, H.
Qed.

End ProgressList.

(** ** The state and the value a streamed call ends with *)
Section StreamedOutcome.
Context {rt : Runtime}.
Import Hook Stream Outcome.

(** Delivering events folds the two accumulators over them. *)
Lemma fold_deliver_accumulates (evs : list jsval) :
  forall (st : Store) (fr : jsval),
    error (fst (fold_left deliver evs (st, fr)))
    = fold_left next_error evs (error st)
    /\ result (fst (fold_left deliver evs (st, fr)))
       = fold_left next_agent evs (result st)
    /\ snd (fold_left deliver evs (st, fr)) = fold_left next_agent evs fr.
Proof.
  induction evs as [|e evs IH]; intros st fr; [auto|].
  cbn [fold_left].
  assert (Hstep : forall acc,
    next_error acc e = (if is_error e then member e "message" else acc)
    /\ next_agent acc e
       = (if is_complete e && truthy (agent_of e) then agent_of e else acc))
    by (intros acc; split; reflexivity).
  destruct (Hstep (error st)) as [-> _].
  destruct (Hstep (result st)) as [_ ->].
  destruct (Hstep fr) as [_ ->]. clear Hstep.
  destruct (deliver_cases e st fr)
    as [(_ & Ht & H) | [(_ & He & Hc & H) | [(_ & He & Hc & H) | (_ & Ht & H)]]];
    rewrite H; clear H.
  - apply orb_false_iff in Ht. destruct Ht as [He Hc].
    rewrite He, Hc. exact (IH st fr).
  - rewrite He, Hc. exact (IH (setError (member e "message") st) fr).
  - rewrite He, Hc. cbn [andb].
    destruct (truthy (agent_of e)).
    + exact (IH (setEvents (fun prev => prev ++ [e])
                   (setResult (agent_of e) st)) (agent_of e)).
    + exact (IH (setEvents (fun prev => prev ++ [e]) st) fr).
  - apply orb_false_iff in Ht. destruct Ht as [He Hc].
    rewrite He, Hc. exact (IH (setEvents (fun prev => prev ++ [e]) st) fr).
Qed.

Lemma fold_next_agent_truthy (evs : list jsval) :
  forall acc, truthy (fold_left next_agent evs acc)
              = existsb carries_agent evs
                || (truthy acc && negb (existsb carries_agent evs)).
Proof.
  induction evs as [|e evs IH]; intros acc.
  - cbn. now rewrite andb_true_r.
  - cbn [fold_left existsb]. rewrite IH.
    assert (Hstep : next_agent acc e
                    = if carries_agent e then agent_of e else acc)
      by reflexivity.
    rewrite Hstep. clear Hstep.
    destruct (carries_agent e) eqn:Hc; cbn [orb].
    + unfold carries_agent in Hc. apply andb_true_iff in Hc.
      destruct Hc as [_ ->]. cbn. now destruct (existsb carries_agent evs).
    + reflexivity.
Qed.



End StreamedOutcome.

Section StreamedOutcomeAtWork.
Import Sample Hook Stream Outcome.



End StreamedOutcomeAtWork.

(** ** From the received events to the progress panel and the dashboard *)
Section AfterTheCall.
Context {rt : Runtime}.
Import Hook Stream Outcome.

(** The store and the value of a call whose response is ok and has a
    body, in terms of the received events. *)
Lemma streamed_call (net : Network) (url : string) (method : Api.Method)
  (body : jsval) (st : Store) (r : Response) (b : Body) :
  fetch net (request_of net url method body) = FetchResolves r ->
  ok r = true ->
  Hook.body r = Some b ->
  events (fst (executeStream net url method body st))
  = filter (fun e => negb (is_error e)) (received_events (chunks b))
  /\ error (fst (executeStream net url method body st))
     = error_after (ending b) (received_events (chunks b))
  /\ result (fst (executeStream net url method body st))
     = last_agent (received_events (chunks b))
  /\ isLoading (fst (executeStream net url method body st)) = false
  /\ snd (executeStream net url method body st)
     = value_after (ending b) (received_events (chunks b)).
Proof.
  intros Hfetch Hok Hbody.
  rewrite executeStream_unfold, Hfetch, (settle_streamed r b _ Hok Hbody).
  destruct (begin_clears st) as (Hev0 & Herr0 & Hres0 & _).
  pose proof (fold_deliver_events (received_events (chunks b))
                (snd (executeStream_begin st), JNull)
                (received_events_not_nullish (chunks b))) as Hev.
  destruct (fold_deliver_accumulates (received_events (chunks b))
              (snd (executeStream_begin st)) JNull) as (Herr & Hres & Hfr).
  cbn [fst] in Hev. rewrite Hev0 in Hev. rewrite Herr0 in Herr.
  rewrite Hres0 in Hres. cbn [app] in Hev.
  destruct (fold_left deliver (received_events (chunks b))
              (snd (executeStream_begin st), JNull)) as [st1 fr1].
  cbn [fst snd] in *.
  split; [now rewrite leave_events|].
  split; [|split; [|split; [apply leave_isLoading|]]].
  - unfold leave, error_after.
    destruct (ending b) as [|[name message|]]; cbn [completion_of catch_block].
    + exact Herr.
    + destruct (String.eqb name "AbortError"); [exact Herr | reflexivity].
    + reflexivity.
  - unfold leave. destruct (ending b) as [|t]; cbn [completion_of].
    + exact Hres.
    + pose proof (catch_block_keeps t st1) as (_ & Hk & _).
      destruct (catch_block t st1) as [st2 v]. cbn [fst] in *.
      destruct (finally_block_keeps st2) as (_ & _ & Hf & _).
      now rewrite Hf, Hk.
  - unfold leave, value_after. destruct (ending b) as [|t];
      cbn [completion_of].
    + exact Hfr.
    + pose proof (catch_block_keeps t st1) as (_ & _ & _ & Hv).
      destruct (catch_block t st1) as [st2 v]. exact Hv.
Qed.

Lemma existsb_complete_shown (evs : list jsval) :
  existsb is_complete (filter (fun e => negb (is_error e)) evs)
  = existsb is_complete evs.
Proof.
  induction evs as [|e evs IH]; [reflexivity|].
  cbn [filter existsb]. destruct (is_error e) eqn:He; cbn [negb existsb].
  - rewrite IH. destruct (is_complete e) eqn:Hc; [|reflexivity].
    apply complete_not_error in Hc. congruence.
  - now rewrite IH.
Qed.

Lemma carries_agent_complete (evs : list jsval) :
  existsb carries_agent evs = true -> existsb is_complete evs = true.
Proof.
  induction evs as [|e evs IH]; [discriminate|].
  cbn [existsb]. intros H. apply orb_true_iff in H. apply orb_true_iff.
  destruct H as [H|H]; [left | right; now apply IH].
  unfold carries_agent in H. now apply andb_true_iff in H.
Qed.

Lemma truthy_last_agent (evs : list jsval) :
  truthy (last_agent evs) = existsb carries_agent evs.
Proof.
  unfold last_agent. rewrite fold_next_agent_truthy. cbn [truthy andb].
  apply orb_false_r.
Qed.


(** X9.  On the dashboard, over a network that answers every request with
    a response that is ok and has a body: the create, start and stop
    handlers refresh the agents list exactly when the reads ended with
    [done] and some received [complete] event carried an agent; the delete
    handler, once confirmed, refreshes it whatever the stream carried, and
    does nothing at all when the confirmation is declined.  Each handler
    that ran leaves the progress modal open and [isLoading] false. *)
Theorem dashboard_refresh_follows_the_stream
  (net : Network) (rendered : Store) (r : Response) (b : Body)
  (agent : Types.Agent) (data : DashboardPage.CreateAgentRequest)
  (s : DashboardPage.State) :
  (forall request, fetch net request = FetchResolves r) ->
  ok r = true ->
  Hook.body r = Some b ->
  let refreshed :=
    match ending b with
    | Done => existsb carries_agent (received_events (chunks b))
    | ReadRejects _ => false
    end in
  let expected (s' : DashboardPage.State) :=
    DashboardPage.invalidated s'
    = DashboardPage.invalidated s ++ (if refreshed then [["agents"]] else [])
    /\ DashboardPage.isProgressModalOpen s' = true
    /\ isLoading (DashboardPage.hook s') = false in
  expected (DashboardPage.handleCreateAgentStreaming net rendered data s)
  /\ expected (DashboardPage.handleStartAgentStreaming net rendered agent s)
  /\ expected (DashboardPage.handleStopAgentStreaming net rendered agent s)
  /\ (DashboardPage.invalidated
        (DashboardPage.handleDeleteAgentStreaming net rendered agent true s)
      = DashboardPage.invalidated s ++ [["agents"]]
      /\ DashboardPage.isProgressModalOpen
           (DashboardPage.handleDeleteAgentStreaming net rendered agent true s)
         = true
      /\ isLoading
           (DashboardPage.hook
              (DashboardPage.handleDeleteAgentStreaming net rendered agent
                 true s))
         = false)
  /\ DashboardPage.handleDeleteAgentStreaming net rendered agent false s = s.
Proof.
  intros Hnet Hok Hbody refreshed expected.
  assert (Hpost : forall url body title s0,
    DashboardPage.invalidated s0 = DashboardPage.invalidated s ->
    expected (DashboardPage.post_and_refresh net rendered url body
                (DashboardPage.open_progress title s0))).
  { intros url body title s0 Hs0.
    unfold expected, DashboardPage.post_and_refresh, useStreamingOperation,
      executePost.
    cbn [DashboardPage.hook DashboardPage.open_progress
         DashboardPage.invalidated DashboardPage.isProgressModalOpen].
    destruct (streamed_call net url Api.POST body
                (reset (DashboardPage.hook s0)) r b (Hnet _) Hok Hbody)
      as (_ & _ & _ & Hload & Hval).
    destruct (executeStream net url Api.POST body
                (reset (DashboardPage.hook s0))) as [hook' value].
    cbn [fst snd] in *.
    cbn [DashboardPage.invalidated DashboardPage.isProgressModalOpen
         DashboardPage.hook].
    split; [|split; [reflexivity | exact Hload]].
    rewrite Hval, Hs0. unfold value_after, refreshed.
    destruct (ending b).
    - rewrite truthy_last_agent.
      destruct (existsb carries_agent (received_events (chunks b)));
        [reflexivity | now rewrite app_nil_r].
    - cbn [truthy]. now rewrite app_nil_r. }
  split; [|split; [|split; [|split]]].
  - apply Hpost. reflexivity.
  - apply Hpost. reflexivity.
  - apply Hpost. reflexivity.
  - unfold DashboardPage.handleDeleteAgentStreaming. cbn [negb].
    cbn [DashboardPage.hook DashboardPage.open_progress].
    pose proof (executeDelete_store rendered (reset (DashboardPage.hook s))
                  net (Api.deleteUrl (Types.id agent))) as Hstore.
    destruct (streamed_call net (Api.deleteUrl (Types.id agent)) Api.DELETE
                JUndefined (reset (DashboardPage.hook s)) r b
                (Hnet _) Hok Hbody) as (_ & _ & _ & Hload & _).
    destruct (executeDelete _ _ _ _) as [hook' success].
    cbn [fst] in Hstore. subst hook'.
    cbn [DashboardPage.invalidated DashboardPage.isProgressModalOpen
         DashboardPage.hook].
    split; [reflexivity | split; [reflexivity | exact Hload]].
  - reflexivity.
Qed.

End AfterTheCall.

Section AfterTheCallAtWork.
Import Sample Hook Stream Outcome.


(** The theorem at work: starting the sample agent over [Sample.quiet],
    a stream with no terminal event, refreshes nothing. *)
Lemma dashboard_refresh_follows_the_stream_witness :
  let s := {| DashboardPage.isCreateModalOpen := false;
              DashboardPage.isProgressModalOpen := false;
              DashboardPage.progressTitle := "";
              DashboardPage.hook := initial;
              DashboardPage.invalidated := [] |} in
  DashboardPage.invalidated
    (DashboardPage.handleStartAgentStreaming (always (streams quiet)) initial
       (agent Types.stopped) s) = [].
Proof.
  intros s.
  exact (proj1 (proj1 (proj2
    (dashboard_refresh_follows_the_stream (always (streams quiet)) initial
       _ _ (agent Types.stopped)
       {| DashboardPage.name := "x"; DashboardPage.platform_type := None;
          DashboardPage.template_id := None |}
       s (fun _ => eq_refl) eq_refl eq_refl)))).
Defined.

End AfterTheCallAtWork.

(** ** Nothing is lost between two reads *)
Section Buffering.
Context {rt : Runtime}.
Import Hook Stream Feed.

Lemma join_cons_char (sep c : ascii) (l : string) (ls : list string) :
  join sep (String c l :: ls) = String c (join sep (l :: ls)).
Proof. destruct ls; reflexivity. Qed.

(** [split] and [join] are inverse on the text. *)
Lemma join_split (sep : ascii) (s : string) : join sep (split sep s) = s.
Proof.
  induction s as [|c s IH]; [reflexivity|].
  cbn [split]. destruct (Ascii.eqb c sep) eqn:Hc.
  - apply Ascii.eqb_eq in Hc. subst c.
    pose proof (split_not_nil sep s) as Hne.
    destruct (split sep s) as [|l ls] eqn:Hs; [congruence|].
    cbn [join String.append]. cbn [join] in IH. now rewrite IH.
  - destruct (split sep s) as [|l ls] eqn:Hs.
    + exfalso. apply (split_not_nil sep s). assumption.
    + rewrite join_cons_char. now rewrite IH.
Qed.

Lemma process_chunk_unfold (value : list byte) (rd : Reading) (st : Store) :
  process_chunk value rd st =
  ({| decoder := fst (decode (decoder rd) value);
      buffer := last (split LF (buffer rd ++ snd (decode (decoder rd) value))%string) "";
      finalResult :=
        snd (fold_left process_line
               (complete_lines (buffer rd ++ snd (decode (decoder rd) value))%string)
               (st, finalResult rd)) |},
   fst (fold_left process_line
          (complete_lines (buffer rd ++ snd (decode (decoder rd) value))%string)
          (st, finalResult rd))).
Proof.
  unfold process_chunk, complete_lines.
  destruct (decode (decoder rd) value) as [d' s]. cbn [fst snd].
  destruct (fold_left process_line _ _) as [st' fr']. reflexivity.
Qed.

(** The loop's invariant: the buffer is the open segment of the text read
    so far, and the store and [finalResult] are those of the body run on
    its complete lines. *)
Lemma feed_invariant (reads : list (list byte)) :
  forall (rd : Reading) (st st0 : Store) (text : string),
    buffer rd = last (split LF text) "" ->
    (st, finalResult rd)
    = fold_left process_line (complete_lines text) (st0, JNull) ->
    let text' := (text ++ decoded (decoder rd) reads)%string in
    buffer (fst (feed reads (rd, st))) = last (split LF text') ""
    /\ (snd (feed reads (rd, st)), finalResult (fst (feed reads (rd, st))))
       = fold_left process_line (complete_lines text') (st0, JNull).
Proof.
  induction reads as [|value rest IH]; intros rd st st0 text Hbuf Hacc text'.
  - unfold text'. cbn [decoded feed fold_left fst snd].
    rewrite append_empty_r. auto.
  - unfold text'. cbn [decoded].
    change (feed (value :: rest) (rd, st))
      with (feed rest (process_chunk value rd st)).
    rewrite process_chunk_unfold.
    destruct (decode (decoder rd) value) as [d' s] eqn:Hd. cbn [fst snd].
    rewrite <- append_assoc.
    set (acc := fold_left process_line (complete_lines (buffer rd ++ s)%string)
                  (st, finalResult rd)).
    refine (IH {| decoder := d';
                  buffer := last (split LF (buffer rd ++ s)%string) "";
                  finalResult := snd acc |}
               (fst acc) st0 (text ++ s)%string _ _).
    + cbn [buffer]. rewrite Hbuf. symmetry. apply last_split_app.
    + cbn [finalResult]. rewrite <- surjective_pairing. unfold acc.
      rewrite (complete_lines_app text s), fold_left_app, <- Hacc, Hbuf.
      reflexivity.
Qed.

(** The read loop is the loop body run on each chunk, then the end of
    the reads. *)
Lemma read_loop_feed (reads : list (list byte)) (ending : ReadEnd) :
  forall (rd : Reading) (st : Store),
    read_loop reads ending rd st
    = (snd (feed reads (rd, st)),
       completion_of ending (finalResult (fst (feed reads (rd, st))))).
Proof.
  induction reads as [|value rest IH]; intros rd st.
  - destruct ending; reflexivity.
  - cbn [read_loop].
    change (feed (value :: rest) (rd, st))
      with (feed rest (process_chunk value rd st)).
    destruct (process_chunk value rd st) as [rd' st']. apply IH.
Qed.

(** X10.  After the loop body has run on any sequence of chunks, the
    buffer holds the received text after its last line feed, and the lines
    handed to the loop's body followed by the buffer, joined by line
    feeds, are the received text: no character is lost or repeated where
    two chunks meet.  The store and [finalResult] are those of the body run
    on exactly those lines, and they are what the read loop ends with
    however the reads end. *)
Theorem buffering_loses_nothing (reads : list (list byte)) (st : Store) :
  let rd := fst (feed reads (start_reading, st)) in
  no_LF (buffer rd) = true
  /\ join LF (complete_lines (received_text reads) ++ [buffer rd])
     = received_text reads
  /\ (snd (feed reads (start_reading, st)), finalResult rd)
     = fold_left process_line (complete_lines (received_text reads)) (st, JNull)
  /\ (forall ending,
        read_loop reads ending start_reading st
        = (snd (feed reads (start_reading, st)),
           completion_of ending (finalResult rd))).
Proof.
  intros rd.
  destruct (feed_invariant reads start_reading st st "" eq_refl eq_refl)
    as (Hbuf & Hacc).
  cbn [String.append decoder start_reading] in Hbuf, Hacc.
  fold (received_text reads) in Hbuf, Hacc. fold rd in Hbuf, Hacc.
  split; [|split; [|split]].
  - rewrite Hbuf. apply no_LF_last_split.
  - rewrite Hbuf. unfold complete_lines.
    rewrite <- app_removelast_last by apply split_not_nil.
    apply join_split.
  - exact Hacc.
  - intros ending. apply read_loop_feed.
Qed.

End Buffering.

(** ** Invariants of overlapping calls *)
Section ReachableStates.
Context {rt : Runtime}.
Import Hook Async Reachable.

Lemma find_call_flying (c : AbortController) (calls : list Call) :
  (exists a, find_call c calls = Some a) <-> In c (map controller calls).
Proof.
  induction calls as [|call rest IH]; cbn [find_call map In].
  - split; [intros [a H]; discriminate | contradiction].
  - destruct (Nat.eqb (controller call) c) eqn:Hc.
    + apply Nat.eqb_eq in Hc. split; [now left | eauto].
    + apply Nat.eqb_neq in Hc. rewrite IH. split; [now right|].
      intros [H|H]; [congruence | assumption].
Qed.

Lemma update_call_awaiting (c : AbortController) (a : Awaiting)
  (calls : list Call) :
  map controller (update_call c (Some a) calls) = map controller calls.
Proof.
  induction calls as [|call rest IH]; [reflexivity|].
  cbn [update_call]. destruct (Nat.eqb (controller call) c) eqn:Hc.
  - apply Nat.eqb_eq in Hc. cbn [map controller]. now rewrite Hc.
  - cbn [map]. now rewrite IH.
Qed.

Lemma update_call_removed (c : AbortController) (calls : list Call) :
  forall x, In x (map controller (update_call c None calls)) ->
            In x (map controller calls).
Proof.
  induction calls as [|call rest IH]; intros x; [contradiction|].
  cbn [update_call]. destruct (Nat.eqb (controller call) c).
  - cbn [map In]. now right.
  - cbn [map In]. intros [H|H]; [now left | right; now apply IH].
Qed.

Lemma update_call_NoDup (c : AbortController) (calls : list Call) :
  NoDup (map controller calls) ->
  NoDup (map controller (update_call c None calls)).
Proof.
  induction calls as [|call rest IH]; intros Hnd; [constructor|].
  cbn [map] in Hnd. inversion Hnd as [|? ? Hnot Hrest]; subst.
  cbn [update_call]. destruct (Nat.eqb (controller call) c).
  - assumption.
  - cbn [map]. constructor; [|now apply IH].
    intros Hin. apply Hnot. now apply update_call_removed in Hin.
Qed.

(** The loop body writes none of [isLoading], the reference, the aborted
    controllers and the controller counter. *)
Lemma process_chunk_frame (value : list byte) (rd : Reading) (st : Store) :
  isLoading (snd (process_chunk value rd st)) = isLoading st
  /\ abortControllerRef (snd (process_chunk value rd st))
     = abortControllerRef st
  /\ aborted (snd (process_chunk value rd st)) = aborted st
  /\ next_controller (snd (process_chunk value rd st)) = next_controller st.
Proof.
  rewrite process_chunk_unfold. cbn [snd].
  rewrite fold_process_line. apply fold_deliver_frame.
Qed.

Lemma leave_frame (c : Completion) (st : Store) :
  isLoading (fst (leave c st)) = false
  /\ abortControllerRef (fst (leave c st)) = None
  /\ aborted (fst (leave c st)) = aborted st
  /\ next_controller (fst (leave c st)) = next_controller st.
Proof.
  unfold leave. destruct c as [v|[name message|]]; cbn [catch_block].
  - repeat split.
  - destruct (String.eqb name "AbortError"); repeat split.
  - repeat split.
Qed.

(** A settled promise either suspends the call again, writing none of
    those cells, or makes it return through [finally]. *)
Lemma resume_frame (a : Awaiting) (s : Settlement) (st st' : Store)
  (next : Awaiting + jsval) :
  resume a s st = Some (st', next) ->
  aborted st' = aborted st
  /\ next_controller st' = next_controller st
  /\ match next with
     | inl _ => isLoading st' = isLoading st
                /\ abortControllerRef st' = abortControllerRef st
     | inr _ => isLoading st' = false /\ abortControllerRef st' = None
     end.
Proof.
  assert (Hleave : forall c,
    Some (fst (leave c st), inr (snd (leave c st))) = Some (st', next) ->
    aborted st' = aborted st
    /\ next_controller st' = next_controller st
    /\ match next with
       | inl _ => isLoading st' = isLoading st
                  /\ abortControllerRef st' = abortControllerRef st
       | inr _ => isLoading st' = false /\ abortControllerRef st' = None
       end).
  { intros c H. injection H as <- <-.
    destruct (leave_frame c st) as (H1 & H2 & H3 & H4). auto. }
  unfold resume. destruct a as [|status|rd], s as [status' has_body|t'|value| |t];
    try discriminate; try apply Hleave.
  - destruct (negb (N.leb 200 status' && N.leb status' 299)).
    + intros H. injection H as <- <-. auto.
    + destruct has_body; [|apply Hleave].
      intros H. injection H as <- <-. auto.
  - pose proof (process_chunk_frame value rd st) as (H1 & H2 & H3 & H4).
    destruct (process_chunk value rd st) as [rd' st1]. cbn [snd] in *.
    intros H. injection H as <- <-. auto.
Qed.

Lemma begin_effect (st : Store) :
  fst (executeStream_begin st) = next_controller st
  /\ next_controller (snd (executeStream_begin st)) = S (next_controller st)
  /\ abortControllerRef (snd (executeStream_begin st))
     = Some (next_controller st)
  /\ isLoading (snd (executeStream_begin st)) = true
  /\ aborted (snd (executeStream_begin st))
     = match abortControllerRef st with
       | Some c => c :: aborted st
       | None => aborted st
       end.
Proof.
  unfold executeStream_begin. destruct (abortControllerRef st); repeat split.
Qed.

Lemma step_keeps_invariant (w w' : World) (e : Step) :
  invariant w -> step w e = Some w' -> invariant w'.
Proof.
  intros (Hfly & Hnd & Hab & Hndab & Href & Hload) Hstep.
  destruct e as [|c s]; cbn [step] in Hstep.
  - (* a new call *)
    destruct (begin_effect (store w)) as (Hc & Hnext & Hr & Hl & Ha).
    destruct (executeStream_begin (store w)) as [c st].
    cbn [fst snd] in *. injection Hstep as <-. subst c.
    unfold invariant, flying in *. cbn [store in_flight].
    rewrite map_app. cbn [map controller]. rewrite Hnext, Hr, Hl, Ha.
    assert (Hfresh : ~ In (next_controller (store w))
                         (map controller (in_flight w)))
      by (intros H; apply Hfly in H; lia).
    split; [|split; [|split; [|split; [|split]]]].
    + intros x Hx. apply in_app_or in Hx.
      destruct Hx as [Hx|[<-|[]]]; [apply Hfly in Hx; lia | lia].
    + apply NoDup_app; [assumption | repeat constructor; intros [] |].
      intros x Hx [<-|[]]. contradiction.
    + destruct (abortControllerRef (store w)) as [c0|] eqn:Hc0.
      * destruct (Href c0 eq_refl) as (Hs & _ & _).
        intros x [<-|Hx]; [lia | apply Hab in Hx; lia].
      * intros x Hx. apply Hab in Hx. lia.
    + destruct (abortControllerRef (store w)) as [c0|] eqn:Hc0;
        [|assumption].
      destruct (Href c0 eq_refl) as (_ & _ & Hnot).
      constructor; assumption.
    + intros x Hx. injection Hx as <-. split; [reflexivity|].
      split; [apply in_or_app; right; now left|].
      destruct (abortControllerRef (store w)) as [c0|] eqn:Hc0.
      * destruct (Href c0 eq_refl) as (Hs & _ & _).
        intros [H|H]; [lia | apply Hab in H; lia].
      * intros H. apply Hab in H. lia.
    + split; [discriminate | reflexivity].
  - (* a settled promise *)
    destruct (find_call c (in_flight w)) as [a|] eqn:Hfind; [|discriminate].
    destruct (resume a s (store w)) as [[st next]|] eqn:Hres; [|discriminate].
    destruct (resume_frame a s (store w) st next Hres) as (Ha & Hn & Hrest).
    destruct next as [a'|value]; injection Hstep as <-;
      unfold invariant, flying in *; cbn [store in_flight];
      rewrite Ha, Hn; destruct Hrest as [Hl Hr]; rewrite Hl, Hr.
    + rewrite update_call_awaiting.
      exact (conj Hfly (conj Hnd (conj Hab (conj Hndab (conj Href Hload))))).
    + split; [|split; [|split; [|split; [|split]]]].
      * intros x Hx. apply update_call_removed in Hx. now apply Hfly.
      * now apply update_call_NoDup.
      * assumption.
      * assumption.
      * discriminate.
      * split; [discriminate | congruence].
Qed.

Lemma steps_keep_invariant (trace : list Step) :
  forall w w', invariant w -> steps w trace = Some w' -> invariant w'.
Proof.
  induction trace as [|e rest IH]; intros w w' Hinv Hsteps.
  - injection Hsteps as <-. assumption.
  - cbn [steps] in Hsteps.
    destruct (step w e) as [w1|] eqn:Hstep; [|discriminate].
    eapply IH; [|eassumption]. eapply step_keeps_invariant; eassumption.
Qed.

Lemma start_invariant : invariant start.
Proof.
  unfold invariant, flying. cbn.
  repeat split; try contradiction; try constructor; try discriminate.
Qed.

(** X11.  In every state the page reaches by invoking the hook and by
    settling the promises its calls await: the controller reference, when
    set, holds the call invoked last, which is then still in flight and
    not aborted, so a new call can only ever abort the call invoked just
    before it; [isLoading] is true exactly when the reference is set; and
    no controller is aborted twice. *)
Theorem reference_is_the_latest_call (trace : list Step) (w : World) :
  steps start trace = Some w ->
  (forall c, abortControllerRef (store w) = Some c ->
     S c = next_controller (store w)
     /\ is_in_flight c w = true
     /\ is_aborted c w = false)
  /\ (isLoading (store w) = true <-> abortControllerRef (store w) <> None)
  /\ NoDup (aborted (store w)).
Proof.
  intros Hsteps.
  destruct (steps_keep_invariant trace start w start_invariant Hsteps)
    as (_ & _ & _ & Hndab & Href & Hload).
  split; [|split; assumption].
  intros c Hc. destruct (Href c Hc) as (Hs & Hin & Hnot).
  split; [assumption|]. split.
  - unfold is_in_flight. apply find_call_flying in Hin.
    destruct Hin as [a ->]. reflexivity.
  - unfold is_aborted. destruct (existsb (Nat.eqb c) (aborted (store w))) eqn:He;
      [|reflexivity].
    apply existsb_exists in He. destruct He as (x & Hx & Heq).
    apply Nat.eqb_eq in Heq. subst x. contradiction.
Qed.

End ReachableStates.

Section ReachableStatesAtWork.
Import Sample Hook Async.

(** The theorem at work: a call that received its response, overtaken
    by a second call. *)
Lemma reference_is_the_latest_call_witness :
  exists w,
    steps start [Invoke; Settle 0 (Fetched 200 true); Invoke] = Some w
    /\ abortControllerRef (store w) = Some 1
    /\ is_in_flight 1 w = true
    /\ is_aborted 1 w = false.
Proof.
  eexists. split; [reflexivity|]. split; [reflexivity|].
  exact (proj2 (proj1 (reference_is_the_latest_call
                         [Invoke; Settle 0 (Fetched 200 true); Invoke] _
                         eq_refl) 1 eq_refl)).
Defined.

End ReachableStatesAtWork.


(** ** Routes and the session *)
Section Routing.
Import Js Session Router.

Lemma render_cases (auth : AuthState) (path : string) (e : Element) :
  render auth path = Some e ->
  (path = "/" /\ e = (if isAuthenticated auth then Navigate "/dashboard"
                      else Bare Landing))
  \/ (path = "/auth/callback" /\ e = Bare AuthCallback)
  \/ (exists page, In page [Dashboard; AgentDetail; SavedAgents;
                            Credentials; AuditLogs]
                   /\ e = ProtectedRoute auth (InLayout page)).
Proof.
  unfold render, AppRoutes. cbn [element_of].
  repeat match goal with
  | |- context [String.eqb ?p path] =>
      destruct (String.eqb p path) eqn:?H
  end; intros Heq; try discriminate; injection Heq as <-;
  try (apply String.eqb_eq in H; subst path).
  - left. now split.
  - right; left. apply String.eqb_eq in H0. now split.
  - right; right. exists Dashboard. cbn. tauto.
  - right; right. exists AgentDetail. cbn. tauto.
  - right; right. exists SavedAgents. cbn. tauto.
  - right; right. exists Credentials. cbn. tauto.
  - right; right. exists AuditLogs. cbn. tauto.
Qed.

Lemma ProtectedRoute_cases (auth : AuthState) (children : Element) :
  (isLoading auth = true /\ ProtectedRoute auth children = Spinner)
  \/ (isLoading auth = false /\ isAuthenticated auth = false
      /\ ProtectedRoute auth children = Navigate "/")
  \/ (isLoading auth = false /\ isAuthenticated auth = true
      /\ ProtectedRoute auth children = children).
Proof.
  unfold ProtectedRoute.
  destruct (isLoading auth), (isAuthenticated auth); cbn; tauto.
Qed.

(** X13.  Whatever the session: a page inside the layout (dashboard,
    agent detail, saved agents, credentials, audit logs) is rendered only
    when a user is set and loading is over; the landing page is rendered
    only when no user is set; and a redirect never leads to another
    redirect, nor to a missing route: a visitor without a user sent away
    from a protected route reaches the landing page, and a user sent away
    from the landing page reaches the dashboard or its spinner. *)
Theorem protected_pages_need_a_user (auth : AuthState) (path : string) :
  (forall page, render auth path = Some (InLayout page) ->
     isAuthenticated auth = true /\ isLoading auth = false)
  /\ (forall page, render auth path = Some (Bare page) ->
        page = AuthCallback
        \/ (page = Landing /\ isAuthenticated auth = false))
  /\ (forall to, render auth path = Some (Navigate to) ->
        (isAuthenticated auth = false /\ render auth to = Some (Bare Landing))
        \/ (isAuthenticated auth = true
            /\ render auth to
               = Some (if isLoading auth then Spinner
                       else InLayout Dashboard))).
Proof.
  split; [|split].
  - intros page Hr. apply render_cases in Hr.
    destruct Hr as [[_ He]|[[_ He]|(p & _ & He)]].
    + destruct (isAuthenticated auth); discriminate.
    + discriminate.
    + destruct (ProtectedRoute_cases auth (InLayout p))
        as [[_ Hp]|[(_ & _ & Hp)|(Hl & Ha & Hp)]];
        rewrite Hp in He; try discriminate. now split.
  - intros page Hr. apply render_cases in Hr.
    destruct Hr as [[_ He]|[[_ He]|(p & _ & He)]].
    + destruct (isAuthenticated auth); [discriminate|].
      injection He as ->. right. now split.
    + injection He as ->. now left.
    + destruct (ProtectedRoute_cases auth (InLayout p))
        as [[_ Hp]|[(_ & _ & Hp)|(Hl & Ha & Hp)]];
        rewrite Hp in He; discriminate.
  - intros to Hr. apply render_cases in Hr.
    destruct Hr as [[_ He]|[[_ He]|(p & _ & He)]].
    + destruct (isAuthenticated auth) eqn:Ha; [|discriminate].
      injection He as ->. right. split; [reflexivity|].
      unfold render, AppRoutes. cbn [element_of String.eqb Ascii.eqb Bool.eqb].
      unfold ProtectedRoute. rewrite Ha. reflexivity.
    + discriminate.
    + destruct (ProtectedRoute_cases auth (InLayout p))
        as [[_ Hp]|[(_ & Ha & Hp)|(Hl & Ha & Hp)]];
        rewrite Hp in He; try discriminate.
      injection He as ->. left. split; [assumption|].
      unfold render, AppRoutes. cbn [element_of String.eqb Ascii.eqb Bool.eqb].
      now rewrite Ha.
Qed.

(** A protected route under a session without a user, loading over. *)
Lemma anonymous_is_sent_away (auth : AuthState) (path : string) :
  isLoading auth = false -> isAuthenticated auth = false ->
  In path paths -> path <> "/" -> path <> "/auth/callback" ->
  render auth path = Some (Navigate "/").
Proof.
  intros Hl Ha Hin H1 H2. unfold paths in Hin. cbn in Hin.
  unfold render, AppRoutes, ProtectedRoute. rewrite Hl, Ha.
  repeat (destruct Hin as [<-|Hin]; [first [congruence | reflexivity]|]).
  contradiction.
Qed.

(** X14.  Once the promise chain of the provider's mount effect has
    settled, loading is over; a user is set exactly when a non-empty
    token was stored and [/auth/me] resolved with a truthy value; a
    token that [/auth/me] rejected has been removed, and no other token
    is touched; and unless a user is set every protected route then
    redirects to the landing page.  [logout] removes the token, unsets
    the user and leaves for [/] whether or not the server's logout
    succeeded. *)
Theorem session_after_mount (me : Answer) (b : Browser) :
  let after := mount_effect me (b, initial) in
  isLoading (snd after) = false
  /\ (isAuthenticated (snd after) = true <->
      has_token b = true
      /\ exists data, me = Resolves data /\ truthy data = true)
  /\ token (fst after)
     = (if has_token b then
          match me with Resolves _ => token b | Rejects => None end
        else token b)
  /\ (isAuthenticated (snd after) = false ->
      forall path, In path paths ->
        path <> "/" -> path <> "/auth/callback" ->
        render (snd after) path = Some (Navigate "/")
        /\ render (snd after) "/" = Some (Bare Landing))
  /\ (forall answer s,
        logout answer (b, s)
        = ({| token := None; href := Some "/" |},
           {| user := JNull; isLoading := isLoading s |})).
Proof.
  intros after. subst after. unfold mount_effect. cbn [fst snd].
  split; [|split; [|split; [|split]]].
  - destruct (has_token b); reflexivity.
  - destruct (has_token b) eqn:Ht.
    + destruct me as [data|]; cbn.
      * unfold isAuthenticated. cbn. split.
        -- intros H. split; [reflexivity|]. now exists data.
        -- intros [_ (d & Hd & Htr)]. now injection Hd as ->.
      * split; [discriminate|]. intros [_ (d & Hd & _)]. discriminate.
    + cbn. split; [discriminate|]. intros [H _]. discriminate.
  - destruct (has_token b); [destruct me|]; reflexivity.
  - intros Ha path Hin H1 H2. split.
    + apply anonymous_is_sent_away; try assumption.
      destruct (has_token b); [destruct me|]; reflexivity.
    + unfold render, AppRoutes. cbn [element_of String.eqb Ascii.eqb Bool.eqb].
      now rewrite Ha.
  - intros answer s. destruct answer; reflexivity.
Qed.

End Routing.



(** ** Calls that never read a stream *)
Section WithoutStream.
Context {rt : Runtime}.
Import Hook.

Lemma thrown_call (t : thrown) (st : Store) :
  let out := leave (Throw t) (snd (executeStream_begin st)) in
  error (fst out)
  = match t with
    | Thrown_Error name message =>
        if String.eqb name "AbortError" then JNull else JStr message
    | Thrown_other => JStr "Unknown error"
    end
  /\ snd out = JNull
  /\ result (fst out) = JNull
  /\ events (fst out) = []
  /\ isLoading (fst out) = false.
Proof.
  destruct (begin_clears st) as (He & Herr & Hr & _).
  unfold leave. destruct t as [name message|]; cbn [catch_block].
  - destruct (String.eqb name "AbortError"); cbn; auto.
  - cbn. auto.
Qed.

(** X17.  A call that never gets to read a stream reports why and
    returns [null] with cleared state: when [fetch] rejects, or
    [response.text()] of a response that is not ok rejects, the error state
    is the message of the [Error] thrown, [Unknown error] for a thrown
    value that is no [Error], and stays [null] for an [AbortError]; when
    the response is ok but has no body it is [No response body].  In each
    case the events are empty, the result is [null], whatever an earlier
    call left there, and [isLoading] is false. *)
Theorem request_without_stream_is_reported (net : Network) (url : string)
  (method : Api.Method) (body : jsval) (st : Store) :
  let out := executeStream net url method body st in
  let reported (message : jsval) :=
    error (fst out) = message
    /\ snd out = JNull
    /\ result (fst out) = JNull
    /\ events (fst out) = []
    /\ isLoading (fst out) = false in
  let message_of (t : thrown) :=
    match t with
    | Thrown_Error name message =>
        if String.eqb name "AbortError" then JNull else JStr message
    | Thrown_other => JStr "Unknown error"
    end in
  (forall t,
     fetch net (request_of net url method body) = FetchRejects t ->
     reported (message_of t))
  /\ (forall r t,
        fetch net (request_of net url method body) = FetchResolves r ->
        ok r = false -> text r = inr t ->
        reported (message_of t))
  /\ (forall r,
        fetch net (request_of net url method body) = FetchResolves r ->
        ok r = true -> Hook.body r = None ->
        reported (JStr "No response body")).
Proof.
  intros out reported message_of. subst out reported message_of.
  rewrite executeStream_unfold. unfold settle.
  split; [|split].
  - intros t ->. cbn [try_block]. apply (thrown_call t st).
  - intros r t -> Hok Ht. cbn [try_block]. rewrite Hok, Ht. cbn [negb].
    apply (thrown_call t st).
  - intros r -> Hok Hb. cbn [try_block]. rewrite Hok, Hb. cbn [negb].
    apply (thrown_call (Thrown_Error "Error" "No response body") st).
Qed.

End WithoutStream.

Section WithoutStreamAtWork.
Import Sample Hook.

(** The theorem at work: the network is down, on a hook that still holds
    the result of an earlier call. *)
Lemma request_without_stream_is_reported_witness :
  let net := always (FetchRejects (Thrown_Error "TypeError" "Failed to fetch")) in
  let st := setResult (JStr "earlier") initial in
  let out := executeStream net (Api.startUrl "a1") Api.POST JUndefined st in
  error (fst out) = JStr "Failed to fetch"
  /\ snd out = JNull
  /\ result (fst out) = JNull
  /\ events (fst out) = []
  /\ isLoading (fst out) = false.
Proof.
  exact (proj1 (request_without_stream_is_reported
                  (always (FetchRejects (Thrown_Error "TypeError" "Failed to fetch")))
                  (Api.startUrl "a1") Api.POST JUndefined
                  (setResult (JStr "earlier") initial))
               (Thrown_Error "TypeError" "Failed to fetch") eq_refl).
Defined.

End WithoutStreamAtWork.

(** ** Lines that carry no event *)
Section Noise.
Context {rt : Runtime}.
Import Hook Stream.

Lemma split_line (line tail : string) :
  no_LF line = true ->
  split LF (line ++ String LF tail) = line :: split LF tail.
Proof.
  induction line as [|c line IH]; intros H.
  - cbn [String.append split]. now rewrite Ascii.eqb_refl.
  - cbn [no_LF] in H. apply andb_true_iff in H. destruct H as [Hc H].
    apply negb_true_iff in Hc.
    cbn [String.append split]. rewrite Hc, (IH H). reflexivity.
Qed.

Lemma complete_lines_line (line tail : string) :
  no_LF line = true ->
  complete_lines (line ++ String LF tail) = line :: complete_lines tail.
Proof.
  intros H. unfold complete_lines. rewrite (split_line line tail H).
  apply removelast_cons, split_not_nil.
Qed.

Lemma line_start (head : string) :
  head = "" \/ (exists h, head = (h ++ String LF "")%string) ->
  last (split LF head) "" = "".
Proof.
  intros [->|[h ->]]; [reflexivity|].
  rewrite last_split_app.
  rewrite (split_line _ "" (no_LF_last_split h)). reflexivity.
Qed.

(** X18.  A line that is no [data: ] line, or whose rest does not parse
    as JSON (or parses to [null]), changes nothing: a blank separator, a
    comment such as [: keep-alive], an [event:] or [id:] field, a damaged
    event.  Two bodies whose texts differ by one such line, inserted at the
    start of a line, carry the same events and end the read loop with the
    same state and the same completion, however each body is cut into
    chunks. *)
Theorem lines_without_event_are_ignored
  (reads reads' : list (list byte)) (head noise tail : string)
  (ending : ReadEnd) (st : Store) :
  received_text reads' = (head ++ tail)%string ->
  received_text reads = (head ++ noise ++ String LF tail)%string ->
  head = "" \/ (exists h, head = (h ++ String LF "")%string) ->
  no_LF noise = true ->
  parse_line noise = None ->
  received_events reads = received_events reads'
  /\ read_loop reads ending start_reading st
     = read_loop reads' ending start_reading st.
Proof.
  intros Hquiet Hnoisy Hhead Hline Hparse.
  assert (Hevents : received_events reads = received_events reads').
  { unfold received_events. rewrite Hquiet, Hnoisy.
    rewrite (complete_lines_app head tail),
      (complete_lines_app head (noise ++ String LF tail)),
      (line_start head Hhead).
    cbn [String.append]. rewrite (complete_lines_line noise tail Hline).
    rewrite !events_of_lines_app.
    change (noise :: complete_lines tail)
      with ([noise] ++ complete_lines tail).
    rewrite events_of_lines_app. unfold events_of_lines at 2.
    cbn [flat_map]. rewrite Hparse. reflexivity. }
  split; [assumption|].
  rewrite !read_loop_events, Hevents. reflexivity.
Qed.

End Noise.

Section NoiseAtWork.
Import Sample Hook Stream.

(** The theorem at work: a keep-alive comment between two events, in a
    body that arrives cut inside it. *)
Lemma lines_without_event_are_ignored_witness :
  let reads :=
    [ chunk "data: {'type':'log','message':'Deleting bucket'}|: keep";
      chunk "-alive|data: {'type':'error','message':'bucket teardown failed'}|" ] in
  let reads' :=
    [ chunk "data: {'type':'log','message':'Deleting bucket'}|data: {'type':'error','message':'bucket teardown failed'}|" ] in
  received_events reads = received_events reads'
  /\ read_loop reads Done start_reading initial
     = read_loop reads' Done start_reading initial.
Proof.
  intros reads reads'.
  apply (lines_without_event_are_ignored reads reads'
           (lines (json "data: {'type':'log','message':'Deleting bucket'}|"))
           ": keep-alive"
           (lines (json "data: {'type':'error','message':'bucket teardown failed'}|"))
           Done initial).
  - vm_compute. reflexivity.
  - vm_compute. reflexivity.
  - right.
    exists (lines (json "data: {'type':'log','message':'Deleting bucket'}")).
    vm_compute. reflexivity.
  - reflexivity.
  - reflexivity.
Defined.

End NoiseAtWork.

(** ** C1: the terminal events decide the outcome *)
Section TerminalEvent.
Context {rt : Runtime}.
Import Hook Stream Outcome.

Lemma fold_next_agent_quiet (evs : list jsval) (acc : jsval) :
  existsb carries_agent evs = false -> fold_left next_agent evs acc = acc.
Proof.
  revert acc. induction evs as [|e evs IH]; intros acc H; [reflexivity|].
  cbn [existsb] in H. apply orb_false_iff in H. destruct H as [He H].
  cbn [fold_left]. unfold next_agent at 2. rewrite He. now apply IH.
Qed.

Lemma fold_next_error_quiet (evs : list jsval) (acc : jsval) :
  existsb is_error evs = false -> fold_left next_error evs acc = acc.
Proof.
  revert acc. induction evs as [|e evs IH]; intros acc H; [reflexivity|].
  cbn [existsb] in H. apply orb_false_iff in H. destruct H as [He H].
  cbn [fold_left]. unfold next_error at 2. rewrite He. now apply IH.
Qed.

(** The last [complete] event that carries an agent decides [last_agent],
    the last [error] event [last_error]. *)
Lemma last_agent_split (before after : list jsval) (e : jsval) :
  carries_agent e = true -> existsb carries_agent after = false ->
  last_agent (before ++ e :: after) = agent_of e.
Proof.
  intros He Hafter. unfold last_agent.
  rewrite fold_left_app. cbn [fold_left].
  rewrite (fold_next_agent_quiet after _ Hafter).
  unfold next_agent. now rewrite He.
Qed.

Lemma last_error_split (before after : list jsval) (e : jsval) :
  is_error e = true -> existsb is_error after = false ->
  last_error (before ++ e :: after) = member e "message".
Proof.
  intros He Hafter. unfold last_error.
  rewrite fold_left_app. cbn [fold_left].
  rewrite (fold_next_error_quiet after _ Hafter).
  unfold next_error. now rewrite He.
Qed.


End TerminalEvent.

Section TerminalEventAtWork.
Import Sample Hook Stream Outcome.



End TerminalEventAtWork.

(** ** C3: nothing updates or deletes an audit log entry *)
Section AuditLog.
Import Api Storage.

(** [DO INSTEAD NOTHING]: an [UPDATE] or a [DELETE] against [audit_logs]
    is rewritten to no command. *)
Lemma instead_nothing (s : Statement) :
  table_of s = "audit_logs" ->
  event_of s = Some ON_UPDATE \/ event_of s = Some ON_DELETE ->
  rewrite schema_rules s = [].
Proof.
  intros Ht He.
  destruct s as [t row|t set cond|t cond|t]; cbn [table_of] in Ht; subst t;
    cbn [event_of] in He.
  - destruct He as [He|He]; discriminate.
  - reflexivity.
  - reflexivity.
  - destruct He as [He|He]; discriminate.
Qed.

(** No rule of the schema names [INSERT]; none can name [TRUNCATE]. *)
Lemma passed_on (s : Statement) :
  event_of s <> Some ON_UPDATE -> event_of s <> Some ON_DELETE ->
  rewrite schema_rules s = [s].
Proof.
  intros Hu Hd. unfold rewrite, schema_rules, applies.
  destruct s as [t row|t set cond|t cond|t]; cbn [event_of] in *;
    try congruence; reflexivity.
Qed.

Lemma run_all_one (DB : Type) (run : Statement -> DB -> DB + string)
  (s : Statement) (db : DB) :
  run_all DB run [s] db = run s db.
Proof. cbn [run_all]. now destruct (run s db). Qed.

(** C3, as amended.  The audit-log client [logs] exports [list] and
    [export] and nothing else; every operation of the client that addresses
    [/logs], and every operation of the [logs] object, only reads ([GET]),
    and so does every documented endpoint under [/logs].  Under the
    schema's two rules an [UPDATE] or a [DELETE] (without [RETURNING])
    issued against [audit_logs] is replaced by no command: whatever the
    executor behind the rules does, it is not reached, the database stays
    in the state it was in and no error is raised.  An [INSERT] into
    [audit_logs] is handed to the executor as written. *)
Theorem audit_log_is_never_updated_or_deleted :
  map op logs = ["list"; "export"]
  /\ (forall o, In o surface -> on_logs o = true ->
        read_only (method o) = true /\ In o logs)
  /\ (forall o, In o surface -> group o = "logs" ->
        read_only (method o) = true)
  /\ (forall m p, In (m, p) documented_endpoints ->
        startsWith "/logs" p = true -> m = GET)
  /\ (forall (DB : Type) (run : Statement -> DB -> DB + string)
             (s : Statement) (db : DB),
        table_of s = "audit_logs" ->
        event_of s = Some ON_UPDATE \/ event_of s = Some ON_DELETE ->
        rewrite schema_rules s = []
        /\ execute DB run schema_rules s db = inl db)
  /\ (forall (DB : Type) (run : Statement -> DB -> DB + string)
             (row : Row) (db : DB),
        execute DB run schema_rules (Insert "audit_logs" row) db
        = run (Insert "audit_logs" row) db).
Proof.
  split; [reflexivity|]. split; [|split; [|split; [|split]]].
  - intros o Hin Hlogs. unfold surface in Hin. cbn in Hin.
    repeat (destruct Hin as [<-|Hin];
            [first [discriminate Hlogs
                   | split; [reflexivity | cbn; tauto]]|]).
    contradiction.
  - intros o Hin Hgroup. unfold surface in Hin. cbn in Hin.
    repeat (destruct Hin as [<-|Hin];
            [first [discriminate Hgroup | reflexivity]|]).
    contradiction.
  - intros m p Hin Hlogs. cbn in Hin.
    repeat (destruct Hin as [Hin|Hin];
            [injection Hin as <- <-;
             first [discriminate Hlogs | reflexivity]|]).
    contradiction.
  - intros DB run s db Ht He. unfold execute.
    rewrite (instead_nothing s Ht He). split; reflexivity.
  - intros DB run row db. unfold execute.
    rewrite passed_on by discriminate. apply run_all_one.
Qed.

(** The theorem at work: over a table of one logged entry and an executor
    that would carry out what it is handed, an [UPDATE] that would rewrite
    every row and a [DELETE] that would remove every row leave the entry
    as it was. *)
Lemma audit_log_is_never_updated_or_deleted_witness :
  let entry : Row := [("action_type", "agent.create")] in
  let obedient (s : Statement) (rows : list Row) : list Row + string :=
    match s with
    | Insert _ row => inl (rows ++ [row])
    | Update _ set cond => inl (map (fun r => if cond r then set r else r) rows)
    | Delete _ cond => inl (filter (fun r => negb (cond r)) rows)
    | Truncate _ => inl []
    end in
  execute (list Row) obedient schema_rules
    (Update "audit_logs" (fun _ => [("action_type", "forged")]) (fun _ => true))
    [entry] = inl [entry]
  /\ execute (list Row) obedient schema_rules
       (Delete "audit_logs" (fun _ => true)) [entry] = inl [entry].
Proof.
  intros entry obedient. split.
  - exact (proj2 (proj1 (proj2 (proj2 (proj2 (proj2
             audit_log_is_never_updated_or_deleted))))
             (list Row) obedient
             (Update "audit_logs" (fun _ => [("action_type", "forged")])
                (fun _ => true))
             [entry] eq_refl (or_introl eq_refl))).
  - exact (proj2 (proj1 (proj2 (proj2 (proj2 (proj2
             audit_log_is_never_updated_or_deleted))))
             (list Row) obedient (Delete "audit_logs" (fun _ => true))
             [entry] eq_refl (or_intror eq_refl))).
Defined.

(** C3 as stated fails on [rejects]: behind the rules stands here an
    executor that raises an error for every command it is handed, and
    raises it for the [UPDATE] when no rule is in place; under the
    schema's rules the same [UPDATE] against [audit_logs] completes
    without an error. *)
Theorem update_is_discarded_not_rejected :
  let strict (s : Statement) (db : unit) : unit + string :=
    inr "permission denied" in
  let forged :=
    Update "audit_logs" (fun _ => [("action_type", "forged")])
      (fun _ => true) in
  execute unit strict [] forged tt = inr "permission denied"
  /\ execute unit strict schema_rules forged tt = inl tt.
Proof. split; reflexivity. Qed.

End AuditLog.

(** ** What reaches the executor over a history *)
Section AppendOnly.
Import Storage Ledger.

Lemma rewrite_tampers (s : Statement) :
  rewrite schema_rules s = if tampers s then [] else [s].
Proof.
  unfold tampers.
  destruct (String.eqb (table_of s) "audit_logs") eqn:Ht; cbn [andb].
  - apply String.eqb_eq in Ht.
    destruct s as [t row|t set cond|t cond|t].
    + apply passed_on; discriminate.
    + apply instead_nothing; [assumption | now left].
    + apply instead_nothing; [assumption | now right].
    + apply passed_on; discriminate.
  - unfold rewrite, schema_rules, applies.
    cbn [find to_table on_event audit_log_no_update audit_log_no_delete].
    rewrite String.eqb_sym in Ht.
    destruct (event_of s) as [e|]; [|reflexivity].
    rewrite Ht, !andb_false_r. reflexivity.
Qed.

(** X12.  Under the schema's two rules, over any history of [INSERT],
    [UPDATE], [DELETE] and [TRUNCATE] statements against any tables, the
    commands that reach the executor are the statements of the history
    other than the [UPDATE]s and [DELETE]s against [audit_logs], each as
    it was written and in the order issued: the rules strike those out,
    and add, change and reorder nothing.  A [TRUNCATE] of [audit_logs] is
    among the commands that reach the executor. *)
Theorem only_tampering_is_struck_out (statements : list Statement) :
  reaching schema_rules statements
  = filter (fun s => negb (tampers s)) statements
  /\ (In (Truncate "audit_logs") statements ->
      In (Truncate "audit_logs") (reaching schema_rules statements)).
Proof.
  assert (Heq : reaching schema_rules statements
                = filter (fun s => negb (tampers s)) statements).
  { unfold reaching.
    induction statements as [|s rest IH]; [reflexivity|].
    cbn [flat_map filter]. rewrite IH, rewrite_tampers.
    destruct (tampers s); reflexivity. }
  split; [exact Heq|].
  intros Hin. rewrite Heq. apply filter_In. split; [assumption | reflexivity].
Qed.

End AppendOnly.

(** ** A second call while the first is in flight *)
Section SecondCall.
Context {rt : Runtime}.
Import Hook Async.

(** While the one call of a page is in flight, whatever its promises
    settled to, the reference holds its controller and nothing was
    aborted. *)
Lemma first_call_keeps_reference (settled : list Settlement) :
  forall (a : Awaiting) (st : Store) (w : World),
    abortControllerRef st = Some 0 ->
    aborted st = [] ->
    next_controller st = 1 ->
    steps {| store := st;
             in_flight := [{| controller := 0; awaiting := a |}];
             returned := [] |}
      (map (Settle 0) settled) = Some w ->
    is_in_flight 0 w = true ->
    abortControllerRef (store w) = Some 0
    /\ aborted (store w) = []
    /\ next_controller (store w) = 1
    /\ exists a', in_flight w = [{| controller := 0; awaiting := a' |}].
Proof.
  induction settled as [|s rest IH]; intros a st w Href Hab Hnext Hsteps Hfly.
  - injection Hsteps as <-. cbn [store in_flight]. eauto.
  - cbn [map steps step store in_flight find_call controller awaiting
         Nat.eqb] in Hsteps.
    destruct (resume a s st) as [[st' [a'|value]]|] eqn:Hres;
      [| |discriminate].
    + destruct (resume_frame a s st st' (inl a') Hres)
        as (Ha & Hn & _ & Hr).
      cbn [update_call controller Nat.eqb returned] in Hsteps.
      apply (IH a' st' w); congruence.
    + cbn [update_call controller Nat.eqb] in Hsteps.
      destruct rest as [|s' rest'].
      * injection Hsteps as <-. discriminate Hfly.
      * discriminate Hsteps.
Qed.

(** X5.  On a fresh hook, a second call made while the first is still
    in flight, at whichever [await] the first is suspended and whatever it
    has received so far, aborts the first call's controller and no other,
    and leaves its own controller, not aborted, in the reference; the
    first call stays in flight until its awaited promise settles. *)
Theorem second_call_aborts_first (settled : list Settlement) (w : World) :
  steps start (Invoke :: map (Settle 0) settled) = Some w ->
  is_in_flight 0 w = true ->
  exists w',
    step w Invoke = Some w'
    /\ aborted (store w') = [0]
    /\ is_aborted 0 w' = true
    /\ is_in_flight 0 w' = true
    /\ abortControllerRef (store w') = Some 1
    /\ is_in_flight 1 w' = true
    /\ is_aborted 1 w' = false.
Proof.
  intros Hsteps Hfly.
  change (steps start (Invoke :: map (Settle 0) settled))
    with (steps {| store := snd (executeStream_begin initial);
                   in_flight := [{| controller := 0; awaiting := AwaitFetch |}];
                   returned := [] |}
            (map (Settle 0) settled)) in Hsteps.
  destruct (first_call_keeps_reference settled AwaitFetch
              (snd (executeStream_begin initial)) w
              eq_refl eq_refl eq_refl Hsteps Hfly)
    as (Href & Hab & Hnext & a' & Hin).
  destruct (begin_effect (store w)) as (Hc & Hn & Hr & _ & Ha).
  rewrite Href, Hab in Ha. rewrite Hnext in Hc, Hr.
  cbn [step].
  destruct (executeStream_begin (store w)) as [c st'].
  cbn [fst snd] in *. subst c.
  eexists. split; [reflexivity|].
  unfold is_aborted, is_in_flight. cbn [store in_flight].
  rewrite Ha, Hr, Hin. repeat split.
Qed.

End SecondCall.

Section SecondCallAtWork.
Import Sample Hook Async.

(** The theorem at work: the first call has received its response and
    is reading the body when the second call is made. *)
Lemma second_call_aborts_first_witness :
  exists w w',
    steps start [Invoke; Settle 0 (Fetched 200 true)] = Some w
    /\ step w Invoke = Some w'
    /\ is_aborted 0 w' = true
    /\ abortControllerRef (store w') = Some 1.
Proof.
  destruct (second_call_aborts_first [Fetched 200 true]
              {| store := snd (executeStream_begin initial);
                 in_flight := [{| controller := 0;
                                  awaiting := AwaitRead start_reading |}];
                 returned := [] |}
              eq_refl eq_refl)
    as (w' & Hstep & _ & Hab & _ & Href & _).
  eexists. exists w'. split; [reflexivity|]. split; [exact Hstep|].
  split; [exact Hab | exact Href].
Defined.

End SecondCallAtWork.

(** ** The action column of the audit log *)
Section ActionColumn.
Import Js Feed AuditLogsPage.

Lemma length_append (a b : string) :
  String.length (a ++ b) = String.length a + String.length b.
Proof. induction a as [|c a IH]; cbn; [reflexivity | now rewrite IH]. Qed.

Lemma split_length (sep : ascii) (s : string) :
  List.length (split sep s) = S (count sep s).
Proof.
  induction s as [|c s IH]; [reflexivity|].
  cbn [split count]. destruct (Ascii.eqb c sep).
  - cbn [List.length]. now rewrite IH.
  - pose proof (split_not_nil sep s) as Hne.
    destruct (split sep s) as [|l ls]; [congruence|].
    cbn [List.length] in *. assumption.
Qed.

Lemma split_whole (sep : ascii) (s : string) :
  count sep s = 0 -> split sep s = [s].
Proof.
  induction s as [|c s IH]; [reflexivity|].
  cbn [count split]. destruct (Ascii.eqb c sep); [discriminate|].
  intros H. now rewrite (IH H).
Qed.

Lemma split_segment (sep : ascii) (line tail : string) :
  count sep line = 0 ->
  split sep (line ++ String sep tail) = line :: split sep tail.
Proof.
  induction line as [|c line IH]; intros H.
  - cbn [String.append split]. now rewrite Ascii.eqb_refl.
  - cbn [count] in H. cbn [String.append split].
    destruct (Ascii.eqb c sep); [discriminate|].
    now rewrite (IH H).
Qed.

(** What [formatAction] shows of an action type, by its dots. *)
Lemma formatAction_no_dot (action : string) :
  count "." action = 0 ->
  formatAction action = {| entity := Some action; verb := None |}.
Proof.
  intros H. unfold formatAction. now rewrite (split_whole "." action H).
Qed.

Lemma formatAction_dotted (e v tail : string) :
  count "." e = 0 -> count "." v = 0 ->
  tail = "" \/ (exists t, tail = String "." t) ->
  formatAction (e ++ String "." (v ++ tail))
  = {| entity := Some e; verb := Some v |}.
Proof.
  intros He Hv Htail. unfold formatAction.
  rewrite (split_segment "." e (v ++ tail) He).
  destruct Htail as [->|[t ->]].
  - rewrite append_empty_r, (split_whole "." v Hv). reflexivity.
  - rewrite (split_segment "." v t Hv).
    destruct (split "." t); reflexivity.
Qed.

(** X15.  What the action column shows, for every action type.  An
    action type without a dot is shown followed by a dot.  An action type
    that begins with a dot-free [e], a dot and a dot-free [v], and then
    ends or goes on with a second dot, is shown as [e.v]: everything from
    the second dot on is dropped.  So the text shown is the action type
    itself exactly when the action type holds one dot
    ([agent.create]). *)
Theorem action_shown_as_is_iff_one_dot (action : string) :
  (count "." action = 0 ->
   textContent (formatAction action) = (action ++ ".")%string)
  /\ (forall e v tail,
        action = (e ++ "." ++ v ++ tail)%string ->
        count "." e = 0 -> count "." v = 0 ->
        tail = "" \/ (exists t, tail = String "." t) ->
        textContent (formatAction action) = (e ++ "." ++ v)%string)
  /\ (textContent (formatAction action) = action <-> count "." action = 1).
Proof.
  split; [|split].
  - intros H. rewrite (formatAction_no_dot action H). reflexivity.
  - intros e v tail -> He Hv Htail.
    change ("." ++ v ++ tail)%string with (String "." (v ++ tail)).
    rewrite (formatAction_dotted e v tail He Hv Htail). reflexivity.
  - pose proof (join_split "." action) as Hjoin.
    pose proof (split_length "." action) as Hlen.
    unfold formatAction, textContent.
    destruct (split "." action) as [|e [|v [|w rest]]];
      cbn [List.length] in Hlen; cbn [entity verb child].
    + discriminate.
    + cbn [join] in Hjoin. subst e. injection Hlen as Hlen. rewrite <- Hlen.
      split; [|discriminate].
      intros H. apply (f_equal String.length) in H.
      rewrite length_append in H. cbn in H. lia.
    + cbn [join] in Hjoin. injection Hlen as Hlen. rewrite <- Hlen.
      change ("." ++ v)%string with (String "." v).
      rewrite Hjoin. tauto.
    + change (join "." (e :: v :: w :: rest))
        with (e ++ String "." (v ++ String "." (join "." (w :: rest))))%string
        in Hjoin.
      injection Hlen as Hlen.
      change ("." ++ v)%string with (String "." v).
      split; [|lia].
      intros H. rewrite <- Hjoin in H.
      apply (f_equal String.length) in H.
      rewrite !length_append in H. cbn [String.length] in H.
      rewrite length_append in H. cbn [String.length] in H. lia.
Qed.

End ActionColumn.

Section ActionColumnAtWork.
Import AuditLogsPage.

(** The theorem at work on three action types. *)
Lemma action_shown_as_is_iff_one_dot_witness :
  textContent (formatAction "login") = "login."
  /\ textContent (formatAction "agent.create.failed") = "agent.create"
  /\ textContent (formatAction "agent.create") = "agent.create".
Proof.
  split; [|split].
  - exact (proj1 (action_shown_as_is_iff_one_dot "login") eq_refl).
  - exact (proj1 (proj2 (action_shown_as_is_iff_one_dot "agent.create.failed"))
             "agent" "create" ".failed" eq_refl eq_refl eq_refl
             (or_intror (ex_intro _ "failed" eq_refl))).
  - exact (proj2 (proj2 (proj2 (action_shown_as_is_iff_one_dot "agent.create")))
             eq_refl).
Defined.

End ActionColumnAtWork.

(** ** The requests of the streaming operations *)
Section StreamingUrls.
Context {rt : Runtime}.
Import Api Calls.

Lemma append_inj_l (p x y : string) : (p ++ x = p ++ y)%string -> x = y.
Proof.
  induction p as [|c p IH]; cbn; [trivial|].
  intros H. injection H as H. now apply IH.
Qed.

Lemma append_inj_length (a b s t : string) :
  String.length a = String.length b ->
  (a ++ s = b ++ t)%string -> a = b /\ s = t.
Proof.
  revert b. induction a as [|c a IH]; intros [|d b] Hlen H;
    cbn in Hlen; try discriminate.
  - now split.
  - cbn in H. injection H as -> H. injection Hlen as Hlen.
    destruct (IH b Hlen H) as [-> ->]. now split.
Qed.

Lemma append_inj_r (a b t : string) : (a ++ t = b ++ t)%string -> a = b.
Proof.
  intros H. apply (append_inj_length a b t t); [|assumption].
  apply (f_equal String.length) in H. rewrite !length_append in H. lia.
Qed.

Lemma start_is_not_stop (a b : string) :
  (a ++ "/start/stream" <> b ++ "/stop/stream")%string.
Proof.
  intros H.
  change "/start/stream"%string with ("/star" ++ "t/stream")%string in H.
  change "/stop/stream"%string with ("/sto" ++ "p/stream")%string in H.
  rewrite <- !append_assoc in H.
  apply append_inj_length in H; [destruct H as [_ H]; discriminate|].
  apply (f_equal String.length) in H. rewrite !length_append in H.
  rewrite !length_append. cbn [String.length] in *. lia.
Qed.

Lemma not_the_collection (a suffix : string) :
  6 < String.length suffix -> (a ++ suffix)%string <> "stream"%string.
Proof.
  intros Hlen H. apply (f_equal String.length) in H.
  rewrite length_append in H. cbn [String.length] in H. lia.
Qed.

Lemma strip_prefix (x y : string) :
  (API_BASE ++ "/agents/" ++ x = API_BASE ++ "/agents/" ++ y)%string -> x = y.
Proof.
  intros E. apply (append_inj_l "/api") in E.
  now apply (append_inj_l "/agents/") in E.
Qed.

Lemma endpoint_injective (c c' : StreamingCall) :
  endpoint c = endpoint c' -> c = c'.
Proof.
  destruct c as [|a|a|a], c' as [|b|b|b]; intros H;
    try discriminate; try reflexivity;
    apply (f_equal snd) in H; cbn [snd endpoint] in H.
  - apply (strip_prefix "stream" (b ++ "/start/stream")) in H.
    symmetry in H. now apply not_the_collection in H; [|cbn; lia].
  - apply (strip_prefix "stream" (b ++ "/stop/stream")) in H.
    symmetry in H. now apply not_the_collection in H; [|cbn; lia].
  - apply (strip_prefix (a ++ "/stream") (b ++ "/stream")) in H.
    apply append_inj_r in H. now subst.
  - apply (strip_prefix (a ++ "/start/stream") "stream") in H.
    now apply not_the_collection in H; [|cbn; lia].
  - apply (strip_prefix (a ++ "/start/stream") (b ++ "/start/stream")) in H.
    apply append_inj_r in H. now subst.
  - apply (strip_prefix (a ++ "/start/stream") (b ++ "/stop/stream")) in H.
    now apply start_is_not_stop in H.
  - apply (strip_prefix (a ++ "/stop/stream") "stream") in H.
    now apply not_the_collection in H; [|cbn; lia].
  - apply (strip_prefix (a ++ "/stop/stream") (b ++ "/start/stream")) in H.
    symmetry in H. now apply start_is_not_stop in H.
  - apply (strip_prefix (a ++ "/stop/stream") (b ++ "/stop/stream")) in H.
    apply append_inj_r in H. now subst.
Qed.

(** The store an operation leaves is that of [try], [catch] and
    [finally] run on what [fetch] answered to the operation's request. *)
Lemma perform_fetches (rendered st : Hook.Store) (net : Hook.Network)
  (c : StreamingCall) (data : jsval) :
  perform (Hook.useStreamingOperation rendered) net c data st
  = fst (Hook.settle (Hook.fetch net (request net c data))
           (snd (Hook.executeStream_begin st))).
Proof.
  destruct c as [|id|id|id]; unfold perform, request;
    cbn [endpoint fst snd body_of].
  - unfold Hook.useStreamingOperation, Hook.executePost.
    now rewrite executeStream_unfold.
  - rewrite executeDelete_store. now rewrite executeStream_unfold.
  - unfold Hook.useStreamingOperation, Hook.executePost.
    now rewrite executeStream_unfold.
  - unfold Hook.useStreamingOperation, Hook.executePost.
    now rewrite executeStream_unfold.
Qed.

(** X16.  Each streaming operation of the pages (create, delete, start,
    stop) consults the network through one request, the value [fetch] is
    called with: the store the operation leaves is that of [try], [catch]
    and [finally] run on the network's answer to it.  The method and the
    URL string of that request identify the operation and the agent id:
    two different operations, or the same operation on two different ids,
    never hand [fetch] the same method and the same URL string, whatever
    characters the ids hold.  (Ids are spliced into the URL unescaped:
    this is about the string handed to [fetch], not about the URL after
    the browser has parsed it.) *)
Theorem streaming_request_identifies_the_call
  (rendered st : Hook.Store) (net : Hook.Network)
  (c c' : StreamingCall) (data data' : jsval) :
  perform (Hook.useStreamingOperation rendered) net c data st
  = fst (Hook.settle (Hook.fetch net (request net c data))
           (snd (Hook.executeStream_begin st)))
  /\ Hook.method (request net c data) = fst (endpoint c)
  /\ Hook.url (request net c data) = snd (endpoint c)
  /\ (c <> c' ->
      (Hook.method (request net c data), Hook.url (request net c data))
      <> (Hook.method (request net c' data'),
          Hook.url (request net c' data'))).
Proof.
  split; [apply perform_fetches|]. split; [reflexivity|].
  split; [reflexivity|].
  intros Hne H. apply Hne. apply endpoint_injective.
  unfold request in H. cbn [Hook.method Hook.url Hook.request_of] in H.
  now rewrite (surjective_pairing (endpoint c)),
    (surjective_pairing (endpoint c')).
Qed.

End StreamingUrls.

Section StreamingUrlsAtWork.
Import Sample Calls.

(** The theorem at work: starting the agent [a1/stop] is not stopping
    the agent [a1]. *)
Lemma streaming_request_identifies_the_call_witness :
  let net := always (streams quiet) in
  StartAgent "a1/stop" <> StopAgent "a1"
  /\ (Hook.method (request net (StartAgent "a1/stop") JUndefined),
      Hook.url (request net (StartAgent "a1/stop") JUndefined))
     <> (Hook.method (request net (StopAgent "a1") JUndefined),
         Hook.url (request net (StopAgent "a1") JUndefined)).
Proof.
  intros net. split; [discriminate|].
  apply (proj2 (proj2 (proj2
           (streaming_request_identifies_the_call Hook.initial Hook.initial
              net (StartAgent "a1/stop") (StopAgent "a1")
              JUndefined JUndefined)))).
  discriminate.
Defined.

End StreamingUrlsAtWork.
